(** * The OTP / session core of the Shopify MCP server (src/index.ts)

    A shallow embedding of the three tool handlers that touch the two
    process-wide maps [otpStorage] and [activeSessions]:
    [request-order-otp], [verify-order-otp] and [get-orders].

    - The two JS [Map]s are finite maps keyed by strings.
    - [Date.now()] yields integer milliseconds; they are far below 2^53, so
      the additions and subtractions the handlers perform on them are exact
      and are written over [Z].
    - [Math.random()] yields a binary64 number; the arithmetic performed on
      it is modelled with IEEE round-to-nearest-even (module [Binary64]).
    - Everything a handler obtains from outside (clock, random source, UUID
      generator, mail sender, Shopify tools) is read from a [world] value
      that is supplied per call.
    - A handler either returns a tool result or rejects with an error; it
      also yields the new stores and the list of collaborator calls it
      dispatched, in order.

    Besides the handlers, the file covers the HTTP endpoints around
    [activeTransport] (module [Http]), the start-up checks on the
    configuration (module [Startup]) and the route table of the earlier
    revision of the entry point (module [Earlier]). *)

From Stdlib Require Import ZArith Lia String Ascii List.
From Stdlib.Floats Require Import SpecFloat.
From stdpp Require Import gmap strings list fin_maps.

Local Open Scope string_scope.
Local Open Scope Z_scope.

(** ** Data model *)

(** Value of [otpStorage]: [{ code: string; expires: number }]. *)
Record otp_entry := { code : string; expires : Z }.

(** Value of [activeSessions]: [{ email: string; createdAt: number }]. *)
Record session := { email : string; createdAt : Z }.

(** The two module-level maps. *)
Record stores := {
  otpStorage : gmap string otp_entry;
  activeSessions : gmap string session
}.

(** JSON values, as far as the handlers build or forward them. *)
#[local] Unset Elimination Schemes.
Inductive json :=
| JNull
| JStr (s : string)
| JNum (n : Z)
| JArr (items : list json)
| JObj (fields : list (string * json)).
#[local] Set Elimination Schemes.

(** The [text] of the single content item of a tool result: a string
    written out in the source, or [JSON.stringify] of a value (left
    uninterpreted). *)
Inductive text :=
| Lit (s : string)
| JSON_stringify (j : json).

(** [{ isError?: true, content: [{ type: "text", text }] }]; a result
    object without the [isError] field has [isError = false]. *)
Record tool_result := { isError : bool; content : text }.

(** How an [async] handler settles: it returns a result, or it rejects
    with an uncaught error (given by its string form). *)
Inductive outcome :=
| Returns (r : tool_result)
| Throws (err : string).

(** Argument of [resend.emails.send]. *)
Record mail := { from : string; to : string; subject : string; html : string }.

(** A customer as [getCustomers.execute] reports it. *)
Record customer := { id : string; firstName : json }.

(** [status] of [get-orders]. *)
Inductive order_status := any | open | closed | cancelled.

(** [rest] of [get-orders]: the arguments with [token] removed. *)
Record orders_query := { status : order_status; limit : Z }.

(** Calls to the collaborators, in the order they are dispatched. *)
Inductive event :=
| EmailsSend (m : mail)
| GetCustomers (searchQuery : string) (lim : Z)
| GetCustomerOrders (customerId : string) (lim : Z)
| GetOrders (q : orders_query).

(** What one handler invocation observes of the outside.  [Math_random]
    is the draw of [Math.random()], scaled by 2^1074 (see [Binary64]).
    [Date_now k] is the k-th reading of the clock during the call.  A collaborator answers
    [inr v] when its promise resolves with [v] and [inl e] when it rejects
    with [e]. *)
Record world := {
  Math_random : Z;
  Date_now : nat -> Z;
  randomUUID : string;
  resend_emails_send : mail -> string + unit;
  getCustomers_execute : string -> Z -> string + list customer;
  getCustomerOrders_execute : string -> Z -> string + json;
  getOrders_execute : orders_query -> string + json
}.

(** ** Binary64 arithmetic on the random draw

    Every finite binary64 number is an integer multiple of 2^-1074.  A
    non-negative number [x] is represented by the integer [x * 2^1074];
    the numbers met in [100000 + Math.random() * 900000] stay far below
    the overflow threshold 2^1024, so no infinity arises. *)
Module Binary64.

(** [x * 2^1074] for an integer [x]. *)
Definition of_int (x : Z) : Z := x * 2 ^ 1074.

(** Exponent (relative to 2^-1074) of the last place of the binade of
    [n]: 53 significant bits are kept, and below 2^-1021 the grid is the
    subnormal one. *)
Definition shift (n : Z) : Z := Z.max (Z.log2 n - 52) 0.

(** Quotient of [n] by [d], rounded to nearest, ties to even. *)
Definition round_half_even (n d : Z) : Z :=
  let q := n / d in
  let r := n mod d in
  if 2 * r <? d then q
  else if d <? 2 * r then q + 1
  else if Z.even q then q else q + 1.

(** Rounding of the exact non-negative value [n] to binary64. *)
Definition fl (n : Z) : Z :=
  let u := 2 ^ shift n in round_half_even n u * u.

(** [n] is a binary64 number: it lies on the grid of its binade. *)
Definition is_double (n : Z) : bool :=
  (0 <=? n) && (n mod 2 ^ shift n =? 0).

(** [a + b]. *)
Definition add (a b : Z) : Z := fl (a + b).

(** [a * k] for an integer-valued [k]: the exact product is [a * k]. *)
Definition mul_int (a k : Z) : Z := fl (a * k).

(** [Math.floor]. *)
Definition floor (a : Z) : Z := a / 2 ^ 1074.

(** Spacing of the binary64 numbers just below 1, that is 2^-53. *)
Definition gap_below_one : Z := 2 ^ 1021.

(** The same operations on the Standard Library's executable IEEE 754
    specification, used to cross-check [fl] on concrete inputs. *)
Definition to_spec (n : Z) : spec_float :=
  binary_normalize 53 1024 n (-1074) false.

Definition of_spec (x : spec_float) : option Z :=
  match x with
  | S754_zero _ => Some 0
  | S754_finite false m e => Some (Z.pos m * 2 ^ (e + 1074))
  | _ => None
  end.

Definition spec_scaled_random (r : Z) : option Z :=
  of_spec (SFadd 53 1024 (to_spec (of_int 100000))
             (SFmul 53 1024 (to_spec r) (to_spec (of_int 900000)))).

End Binary64.

(** ** [Number.prototype.toString] on non-negative integers *)

Definition digit (d : Z) : ascii :=
  match d with
  | 0 => "0" | 1 => "1" | 2 => "2" | 3 => "3" | 4 => "4"
  | 5 => "5" | 6 => "6" | 7 => "7" | 8 => "8" | _ => "9"
  end%char.

Fixpoint digits_of (fuel : nat) (n : Z) (acc : string) : string :=
  match fuel with
  | O => acc
  | S fuel' =>
      let acc' := String (digit (n mod 10)) acc in
      if n / 10 =? 0 then acc' else digits_of fuel' (n / 10) acc'
  end.

(** Decimal digits, most significant first; one pass per binary digit of
    [n] is more than enough. *)
Definition Number_toString (n : Z) : string :=
  digits_of (S (Z.to_nat (Z.log2 n))) n "".

Definition is_decimal_digit (c : ascii) : bool :=
  let k := nat_of_ascii c in (48 <=? k)%nat && (k <=? 57)%nat.

Fixpoint all_digits (s : string) : bool :=
  match s with
  | EmptyString => true
  | String c s' => is_decimal_digit c && all_digits s'
  end.

(** A 6-digit decimal numeral without a leading zero. *)
Definition six_digit_code (s : string) : bool :=
  (String.length s =? 6)%nat && all_digits s &&
  match s with
  | String c _ => negb (Ascii.eqb c "0")
  | EmptyString => false
  end.

(** The number a decimal numeral denotes. *)
Fixpoint decimal_value_from (acc : Z) (s : string) : Z :=
  match s with
  | EmptyString => acc
  | String c s' => decimal_value_from (10 * acc + (Z.of_nat (nat_of_ascii c) - 48)) s'
  end.

Definition decimal_value (s : string) : Z := decimal_value_from 0 s.

(** ** [String.prototype.split] followed by [pop] *)

Fixpoint split (sep : ascii) (s : string) : list string :=
  match s with
  | EmptyString => [EmptyString]
  | String c s' =>
      if Ascii.eqb c sep then EmptyString :: split sep s'
      else match split sep s' with
           | seg :: segs => String c seg :: segs
           | [] => [String c EmptyString]
           end
  end.

Definition pop (segs : list string) : string := List.last segs EmptyString.

(** ** The handlers *)

(** [Math.floor(100000 + Math.random() * 900000).toString()] *)
Definition generate_code (w : world) : string :=
  Number_toString
    (Binary64.floor
       (Binary64.add (Binary64.of_int 100000)
          (Binary64.mul_int (Math_random w) 900000))).

Definition otp_mail (email code : string) : mail :=
  {| from := "onboarding@resend.dev";
     to := email;
     subject := "Your Shopify Order Access Code";
     html := "<p>Your verification code is: <strong>" ++ code ++ "</strong></p>" |}.

Definition error_result (msg : string) : tool_result :=
  {| isError := true; content := Lit msg |}.

Definition text_result (t : text) : tool_result :=
  {| isError := false; content := t |}.

(** Handler of [request-order-otp]. *)
Definition request_order_otp (w : world) (email : string) (st : stores)
  : outcome * stores * list event :=
  let code := generate_code w in
  let st' :=
    {| otpStorage :=
         <[email := {| code := code; expires := Date_now w 0 + 5 * 60 * 1000 |}]>
           (otpStorage st);
       activeSessions := activeSessions st |} in
  let m := otp_mail email code in
  match resend_emails_send w m with
  | inr _ => (Returns (text_result (Lit ("OTP sent to " ++ email))), st', [EmailsSend m])
  | inl error => (Returns (error_result ("Failed to send OTP: " ++ error)), st', [EmailsSend m])
  end.

(** [!stored || stored.code !== code || Date.now() > stored.expires] *)
Definition invalid_or_expired (w : world) (stored : option otp_entry) (code : string) : bool :=
  match stored with
  | None => true
  | Some (Build_otp_entry stored_code stored_expires) =>
      bool_decide (stored_code <> code) || bool_decide (Date_now w 0 > stored_expires)
  end.

Definition degraded (token msg : string) : tool_result :=
  text_result (JSON_stringify (JObj [("token", JStr token); ("message", JStr msg)])).

(** Handler of [verify-order-otp]. *)
Definition verify_order_otp (w : world) (email code : string) (st : stores)
  : outcome * stores * list event :=
  let stored := otpStorage st !! email in
  if invalid_or_expired w stored code then
    (Returns (error_result "Invalid or expired OTP"), st, [])
  else
    let token := randomUUID w in
    let st' :=
      {| otpStorage := delete email (otpStorage st);
         activeSessions :=
           <[token := {| email := email; createdAt := Date_now w 1 |}]>
             (activeSessions st) |} in
    let query := "email:" ++ email in
    match getCustomers_execute w query 1 with
    | inl error =>
        (Returns (degraded token ("Verified, but failed to retrieve orders: " ++ error)),
         st', [GetCustomers query 1])
    | inr customers =>
        match head customers with
        | None =>
            (Returns (degraded token "Verified, but no customer found with this email."),
             st', [GetCustomers query 1])
        | Some customer =>
            let customerId := pop (split "/" (id customer)) in
            match getCustomerOrders_execute w customerId 10 with
            | inl error =>
                (Returns (degraded token ("Verified, but failed to retrieve orders: " ++ error)),
                 st', [GetCustomers query 1; GetCustomerOrders customerId 10])
            | inr orders =>
                (Returns (text_result (JSON_stringify
                   (JObj [("token", JStr token);
                          ("firstName", firstName customer);
                          ("orders", orders)]))),
                 st', [GetCustomers query 1; GetCustomerOrders customerId 10])
            end
        end
    end.

(** Handler of [get-orders]. *)
Definition get_orders (w : world) (token : string) (rest : orders_query) (st : stores)
  : outcome * stores * list event :=
  match activeSessions st !! token with
  | None => (Returns (error_result "Unauthorized: Invalid token"), st, [])
  | Some session =>
      if bool_decide (Date_now w 0 - createdAt session > 3600 * 1000) then
        (Returns (error_result "Unauthorized: Token expired"),
         {| otpStorage := otpStorage st;
            activeSessions := delete token (activeSessions st) |},
         [])
      else
        match getOrders_execute w rest with
        | inr result => (Returns (text_result (JSON_stringify result)), st, [GetOrders rest])
        | inl error => (Throws error, st, [GetOrders rest])
        end
  end.

(** ** Observations on what a handler yields *)

Definition outcome_of (r : outcome * stores * list event) : outcome := r.1.1.
Definition stores_of (r : outcome * stores * list event) : stores := r.1.2.
Definition calls_of (r : outcome * stores * list event) : list event := r.2.

(** The error result of a failed verification. *)
Definition InvalidOrExpired : outcome :=
  Returns (error_result "Invalid or expired OTP").

Fixpoint field (k : string) (fields : list (string * json)) : option json :=
  match fields with
  | [] => None
  | (k', v) :: rest => if String.eqb k k' then Some v else field k rest
  end.

(** The [token] member of the object a successful verification serialises. *)
Definition token_of (o : outcome) : option string :=
  match o with
  | Returns r =>
      match content r with
      | JSON_stringify (JObj fields) =>
          match field "token" fields with
          | Some (JStr t) => Some t
          | _ => None
          end
      | _ => None
      end
  | Throws _ => None
  end.

(** The [message] member, when the serialised object has one. *)
Definition message_of (o : outcome) : option string :=
  match o with
  | Returns r =>
      match content r with
      | JSON_stringify (JObj fields) =>
          match field "message" fields with
          | Some (JStr t) => Some t
          | _ => None
          end
      | _ => None
      end
  | Throws _ => None
  end.

(** The message returned to the caller. *)
Definition content_of (o : outcome) : option text :=
  match o with
  | Returns r => Some (content r)
  | Throws _ => None
  end.

(** The handler returned a result that is not flagged as an error. *)
Definition is_success (o : outcome) : bool :=
  match o with
  | Returns r => negb (isError r)
  | Throws _ => false
  end.

(** The handler returned an error result whose message starts with
    [Unauthorized]. *)
Definition is_unauthorized (o : outcome) : bool :=
  match o with
  | Returns r =>
      isError r &&
      match content r with
      | Lit msg => String.prefix "Unauthorized" msg
      | JSON_stringify _ => false
      end
  | Throws _ => false
  end.

(** Number of entries of a map stored under key [k]. *)
Definition entries_for {V} (k : string) (m : gmap string V) : nat :=
  length (filter (fun kv => kv.1 = k) (map_to_list m)).

(** Successive [get-orders] calls with the same token, one world and one
    query per call; yields what each call settled with and dispatched, and
    the stores after the last call. *)
Fixpoint get_orders_repeatedly (calls : list (world * orders_query)) (token : string)
    (st : stores) : list (outcome * list event) * stores :=
  match calls with
  | [] => ([], st)
  | (w, rest) :: calls' =>
      let r := get_orders w token rest st in
      let rs := get_orders_repeatedly calls' token (stores_of r) in
      ((outcome_of r, calls_of r) :: rs.1, rs.2)
  end.

(** ** Sample inputs used to exercise the statements below *)

Definition sample_uuid : string := "1b4e28ba-2fa1-41d2-883f-0016d3cca427".

(** A world whose clock always reads [now], whose mail sender and Shopify
    tools all answer, and in which no customer matches. *)
Definition calm_world (now : Z) : world :=
  {| Math_random := 0;
     Date_now := fun _ => now;
     randomUUID := sample_uuid;
     resend_emails_send := fun _ => inr tt;
     getCustomers_execute := fun _ _ => inr [];
     getCustomerOrders_execute := fun _ _ => inr (JArr []);
     getOrders_execute := fun _ => inr (JObj [("orders", JArr [])]) |}.

(** As [calm_world], but the mail sender rejects. *)
Definition mail_down_world (now : Z) : world :=
  {| Math_random := 0;
     Date_now := fun _ => now;
     randomUUID := sample_uuid;
     resend_emails_send := fun _ => inl "Error: connect ECONNREFUSED";
     getCustomers_execute := fun _ _ => inr [];
     getCustomerOrders_execute := fun _ _ => inr (JArr []);
     getOrders_execute := fun _ => inr (JObj [("orders", JArr [])]) |}.

(** As [calm_world], but the Shopify tools reject. *)
Definition shopify_down_world (now : Z) : world :=
  {| Math_random := 0;
     Date_now := fun _ => now;
     randomUUID := sample_uuid;
     resend_emails_send := fun _ => inr tt;
     getCustomers_execute := fun _ _ => inl "Error: GraphQL Error (Code: 503)";
     getCustomerOrders_execute := fun _ _ => inl "Error: GraphQL Error (Code: 503)";
     getOrders_execute := fun _ => inl "Error: GraphQL Error (Code: 503)" |}.

(** As [calm_world], but the random source yields the largest binary64
    number below 1. *)
Definition top_draw_world : world :=
  {| Math_random := 2 ^ 1074 - Binary64.gap_below_one;
     Date_now := fun _ => 0;
     randomUUID := sample_uuid;
     resend_emails_send := fun _ => inr tt;
     getCustomers_execute := fun _ _ => inr [];
     getCustomerOrders_execute := fun _ _ => inr (JArr []);
     getOrders_execute := fun _ => inr (JObj [("orders", JArr [])]) |}.

(** Stores with one pending OTP and one session created at instant 1000. *)
Definition sample_stores : stores :=
  {| otpStorage := {[ "a@x.com" := {| code := "123456"; expires := 300000 |} ]};
     activeSessions := {[ "T" := {| email := "a@x.com"; createdAt := 1000 |} ]} |}.

Definition sample_query : orders_query := {| status := any; limit := 10 |}.

(** ** Repeated verification attempts *)

(** Successive [verify-order-otp] calls for one email, one world and one
    submitted code per call; yields how each call settled and the stores
    after the last call. *)
Fixpoint verify_repeatedly (attempts : list (world * string)) (email : string)
    (st : stores) : list outcome * stores :=
  match attempts with
  | [] => ([], st)
  | (w, code) :: attempts' =>
      let r := verify_order_otp w email code st in
      let rs := verify_repeatedly attempts' email (stores_of r) in
      (outcome_of r :: rs.1, rs.2)
  end.

(** [s] does not contain the character [sep]. *)
Fixpoint free_of (sep : ascii) (s : string) : bool :=
  match s with
  | EmptyString => true
  | String c s' => negb (Ascii.eqb c sep) && free_of sep s'
  end.

(** ** The HTTP endpoints (index.ts, [activeTransport] and the routes)

    The module-level variable [activeTransport] and the four routes.  A
    transport is identified by the connection whose response object it was
    built on.  The [/sse] handler runs in two parts, separated by
    [await server.connect]: the assignment, and the registration of the
    [close] listener once the connection attempt has resolved (it is never
    registered when the attempt rejects). *)
Module Http.

Record state := {
  activeTransport : option nat;
  close_listeners : list nat
}.

(** [let activeTransport = null], no listener registered yet. *)
Definition initial : state := {| activeTransport := None; close_listeners := [] |}.

Inductive input :=
| GetSse (conn : nat)
| ConnectResolved (conn : nat)
| Closed (conn : nat)
| PostMessages (delegate : string + unit)
| GetHealth
| GetRoot.

(** What the handler itself does to the response: send a status and a
    body, leave the response to the transport's [handlePostMessage], or
    nothing (the event stream stays open). *)
Inductive reply :=
| Send (status : Z) (body : text)
| HandledBy (conn : nat)
| Nothing.

(** [PostMessages delegate] carries how [handlePostMessage] settles if it
    is called: [inr tt] when it resolves, [inl e] when it rejects. *)
Definition handle (st : state) (i : input) : state * reply :=
  match i with
  | GetSse conn =>
      ({| activeTransport := Some conn; close_listeners := close_listeners st |}, Nothing)
  | ConnectResolved conn =>
      ({| activeTransport := activeTransport st;
          close_listeners := conn :: close_listeners st |}, Nothing)
  | Closed conn =>
      if bool_decide (conn ∈ close_listeners st) then
        ({| activeTransport := None;
            close_listeners := filter (fun c => c <> conn) (close_listeners st) |}, Nothing)
      else (st, Nothing)
  | PostMessages delegate =>
      match activeTransport st with
      | None => (st, Send 503 (Lit "No active SSE connection"))
      | Some transport =>
          match delegate with
          | inr _ => (st, HandledBy transport)
          | inl _ => (st, Send 500 (Lit "Internal Server Error"))
          end
      end
  | GetHealth => (st, Send 200 (JSON_stringify (JObj [("status", JStr "ok")])))
  | GetRoot => (st, Send 200 (JSON_stringify (JObj [("status", JStr "ok")])))
  end.

Fixpoint run (inputs : list input) (st : state) : state * list reply :=
  match inputs with
  | [] => (st, [])
  | i :: inputs' =>
      let r := handle st i in
      let rs := run inputs' r.1 in
      (rs.1, r.2 :: rs.2)
  end.

(** The connection of the last [GET /sse] among [inputs], or [before] when
    there is none. *)
Fixpoint latest_sse (inputs : list input) (before : option nat) : option nat :=
  match inputs with
  | [] => before
  | GetSse conn :: inputs' => latest_sse inputs' (Some conn)
  | _ :: inputs' => latest_sse inputs' before
  end.

End Http.

(** ** Start-up checks (index.ts, configuration)

    [argv.accessToken] and [argv.domain] hold whatever the command-line
    parser produced (nothing, a string, a number, a boolean, an array), so
    their type and the JavaScript truth value of its members are left
    open; [process.env] members are strings or absent. *)
Module Startup.
Section WithArgv.

Variable argvalue : Type.
Variable truthy : argvalue -> bool.

Record launch := {
  argv_accessToken : argvalue;
  argv_domain : argvalue;
  env_SHOPIFY_ACCESS_TOKEN : option string;
  env_MYSHOPIFY_DOMAIN : option string;
  env_RESEND_API_KEY : option string
}.

(** Truth value of a [process.env] member. *)
Definition env_truthy (v : option string) : bool :=
  match v with
  | Some s => negb (String.eqb s "")
  | None => false
  end.

(** [argv.x || process.env.X]: the left operand when it is truthy, else the
    right one. *)
Definition or_env (a : argvalue) (e : option string) : argvalue + option string :=
  if truthy a then inl a else inr e.

Definition setting_truthy (v : argvalue + option string) : bool :=
  match v with
  | inl a => truthy a
  | inr e => env_truthy e
  end.

Record config := {
  SHOPIFY_ACCESS_TOKEN : argvalue + option string;
  MYSHOPIFY_DOMAIN : argvalue + option string;
  RESEND_API_KEY : option string
}.

(** The script either calls [process.exit] after writing lines with
    [console.error], or reaches the construction of the clients. *)
Inductive result :=
| Exit (status : Z) (errors : list string)
| Proceed (c : config).

Definition startup (l : launch) : result :=
  let token := or_env (argv_accessToken l) (env_SHOPIFY_ACCESS_TOKEN l) in
  let domain := or_env (argv_domain l) (env_MYSHOPIFY_DOMAIN l) in
  let key := env_RESEND_API_KEY l in
  if negb (setting_truthy token) then
    Exit 1 ["Error: SHOPIFY_ACCESS_TOKEN is required.";
            "Please provide it via command line argument or .env file.";
            "  Command line: --accessToken=your_token"]
  else if negb (setting_truthy domain) then
    Exit 1 ["Error: MYSHOPIFY_DOMAIN is required.";
            "Please provide it via command line argument or .env file.";
            "  Command line: --domain=your-store.myshopify.com"]
  else if negb (env_truthy key) then
    Exit 1 ["Error: RESEND_API_KEY is required.";
            "Please provide it via .env file."]
  else
    Proceed {| SHOPIFY_ACCESS_TOKEN := token; MYSHOPIFY_DOMAIN := domain;
               RESEND_API_KEY := key |}.

End WithArgv.
End Startup.

(** ** The routes of the earlier revision of the entry point

    There the routes are registered in this order: [GET /sse] with a
    transport local to the handler, [POST /messages], [GET /sse] again
    with the handler that assigns [activeTransport], and [GET /].  Express
    hands a request to the first registered route that matches it, and to
    a later one only when the handler calls [next], which none of these
    handlers does.  What a request line is, and when a route (registered
    with a method and a path pattern) matches one, is left open. *)
Module Earlier.
Section WithMatcher.

Variable request_line : Type.

Inductive method := GET | POST.

Variable route_matches : method -> string -> request_line -> bool.

Inductive handler :=
| SseLocalTransport
| Messages
| SseActiveTransport
| Root.

Definition routes : list (method * string * handler) :=
  [ (GET, "/sse", SseLocalTransport);
    (POST, "/messages", Messages);
    (GET, "/sse", SseActiveTransport);
    (GET, "/", Root) ].

Fixpoint dispatch (table : list (method * string * handler)) (line : request_line)
  : option handler :=
  match table with
  | [] => None
  | (m, pattern, h) :: table' =>
      if route_matches m pattern line then Some h else dispatch table' line
  end.

(** A request: its line, the connection it arrives on, and how
    [handlePostMessage] would settle if it were called. *)
Record request := {
  line : request_line;
  conn : nat;
  delegate : string + unit
}.

Inductive reply :=
| Send (status : Z) (body : text)
| HandledBy (transport : nat)
| Nothing
| NotFound.

(** The state is the variable [activeTransport]. *)
Definition serve (activeTransport : option nat) (r : request) : option nat * reply :=
  match dispatch routes (line r) with
  | Some SseLocalTransport => (activeTransport, Nothing)
  | Some Messages =>
      match activeTransport with
      | None => (activeTransport, Send 503 (Lit "No active SSE connection"))
      | Some transport =>
          match delegate r with
          | inr _ => (activeTransport, HandledBy transport)
          | inl _ => (activeTransport, Send 500 (Lit "Internal Server Error"))
          end
      end
  | Some SseActiveTransport => (Some (conn r), Nothing)
  | Some Root => (activeTransport, Send 200 (Lit "Shopify MCP Server is running"))
  | None => (activeTransport, NotFound)
  end.

Fixpoint serve_all (requests : list request) (activeTransport : option nat)
  : option nat * list reply :=
  match requests with
  | [] => (activeTransport, [])
  | r :: requests' =>
      let s := serve activeTransport r in
      let rs := serve_all requests' s.1 in
      (rs.1, s.2 :: rs.2)
  end.

End WithMatcher.
End Earlier.

(** A world in which the customer lookup finds one customer and the order
    lookup answers with one order. *)
Definition customer_world (now : Z) : world :=
  {| Math_random := 0;
     Date_now := fun _ => now;
     randomUUID := sample_uuid;
     resend_emails_send := fun _ => inr tt;
     getCustomers_execute := fun _ _ =>
       inr [ {| id := "gid://shopify/Customer/123456"; firstName := JStr "Ada" |} ];
     getCustomerOrders_execute := fun _ _ => inr (JArr [JObj [("name", JStr "#1001")]]);
     getOrders_execute := fun _ => inr (JObj [("orders", JArr [])]) |}.

(** As [calm_world], with another token drawn. *)
Definition second_login_world (now : Z) : world :=
  {| Math_random := 0;
     Date_now := fun _ => now;
     randomUUID := "9c5b94b1-35ad-49bb-b118-8e8fc24abf80";
     resend_emails_send := fun _ => inr tt;
     getCustomers_execute := fun _ _ => inr [];
     getCustomerOrders_execute := fun _ _ => inr (JArr []);
     getOrders_execute := fun _ => inr (JObj [("orders", JArr [])]) |}.

(** ** What the Resend client answers

    [resend.emails.send] returns a promise.  The client resolves it with
    an object [{ data, error }] and reports a send that did not go
    through (refused key, unverified sender, rate limit, unreachable
    service) by a non-null [error] in that object; the promise rejects
    only when the call itself throws.  The handler awaits the promise and
    does not keep the value it resolves with, which is why
    [resend_emails_send] of a [world] answers [inr tt] for every
    resolution. *)
Module Resend.

Record response := { data : option string; error : option string }.

(** The mail was not dispatched. *)
Definition failed (answer : string + response) : bool :=
  match answer with
  | inl _ => true
  | inr r => match error r with Some _ => true | None => false end
  end.

(** What a handler that drops the resolved value sees of the answer. *)
Definition awaited (answer : string + response) : string + unit :=
  match answer with
  | inl e => inl e
  | inr _ => inr tt
  end.

End Resend.

(** As [calm_world], but the mail service refuses the message and the
    client says so in the object it resolves with. *)
Definition mail_refused_world (now : Z) (reason : string) : world :=
  {| Math_random := 0;
     Date_now := fun _ => now;
     randomUUID := sample_uuid;
     resend_emails_send := fun _ =>
       Resend.awaited (inr {| Resend.data := None; Resend.error := Some reason |});
     getCustomers_execute := fun _ _ => inr [];
     getCustomerOrders_execute := fun _ _ => inr (JArr []);
     getOrders_execute := fun _ => inr (JObj [("orders", JArr [])]) |}.

(** * Facts *)

(** ** Rounding *)

Import Binary64.

Lemma round_half_even_bounds n d :
  0 < d -> n / d <= round_half_even n d <= n / d + 1.
Proof.
  intros Hd. unfold round_half_even.
  destruct (2 * (n mod d) <? d); [lia|].
  destruct (d <? 2 * (n mod d)); [lia|].
  destruct (Z.even (n / d)); lia.
Qed.

Lemma round_half_even_below n d :
  0 < d -> 2 * (n mod d) < d -> round_half_even n d = n / d.
Proof.
  intros Hd Hr. unfold round_half_even.
  destruct (Z.ltb_spec (2 * (n mod d)) d); [reflexivity | lia].
Qed.

Lemma shift_nonneg n : 0 <= shift n.
Proof. unfold shift. lia. Qed.

Lemma shift_mono a b : a <= b -> shift a <= shift b.
Proof.
  intros Hab. unfold shift. pose proof (Z.log2_le_mono a b Hab). lia.
Qed.

Lemma ulp_pos n : 0 < 2 ^ shift n.
Proof. apply Z.pow_pos_nonneg; [lia | apply shift_nonneg]. Qed.

Lemma fl_nonneg n : 0 <= n -> 0 <= fl n.
Proof.
  intros Hn. unfold fl. cbv zeta.
  pose proof (ulp_pos n) as Hu.
  pose proof (round_half_even_bounds n _ Hu) as [Hq _].
  pose proof (Z.div_pos n _ Hn Hu). nia.
Qed.

Lemma is_double_spec n :
  is_double n = true <-> 0 <= n /\ n mod 2 ^ shift n = 0.
Proof. unfold is_double. rewrite andb_true_iff, Z.leb_le, Z.eqb_eq. tauto. Qed.

Lemma fl_double n : is_double n = true -> fl n = n.
Proof.
  rewrite is_double_spec. intros [_ Hm]. unfold fl. cbv zeta.
  pose proof (ulp_pos n) as Hu.
  rewrite round_half_even_below by lia.
  pose proof (Z.div_mod n _ (ltac:(lia) : 2 ^ shift n <> 0)). lia.
Qed.

Lemma fl_le_double n R :
  0 <= n <= R -> is_double R = true -> fl n <= R.
Proof.
  intros [Hn HnR]. rewrite is_double_spec. intros [_ HR].
  pose proof (shift_mono n R HnR) as Hs.
  pose proof (shift_nonneg n) as Hsn.
  pose proof (ulp_pos n) as Hu.
  assert (HRu : R mod 2 ^ shift n = 0).
  { apply Z.mod_divide in HR; [|lia]. apply Z.mod_divide; [lia|].
    etransitivity; [|exact HR].
    exists (2 ^ (shift R - shift n)). rewrite <- Z.pow_add_r by lia. f_equal. lia. }
  unfold fl. cbv zeta. set (u := 2 ^ shift n) in *.
  pose proof (round_half_even_bounds n u Hu) as [_ Hq].
  pose proof (Z.div_mod n u (ltac:(lia) : u <> 0)) as En.
  pose proof (Z.div_mod R u (ltac:(lia) : u <> 0)) as ER.
  pose proof (Z.mod_pos_bound n u Hu) as Hm.
  destruct (Z.eq_dec (n mod u) 0) as [E0|N0].
  - rewrite round_half_even_below by lia. lia.
  - assert (n / u < R / u) by nia. nia.
Qed.

Lemma double_le_fl n R :
  R <= n -> is_double R = true -> R <= fl n.
Proof.
  intros HRn. rewrite is_double_spec. intros [HR0 HR].
  pose proof (shift_mono R n HRn) as Hs.
  pose proof (ulp_pos n) as Hu.
  unfold fl. cbv zeta.
  pose proof (round_half_even_bounds n _ Hu) as [Hq _].
  pose proof (Z.div_mod n _ (ltac:(lia) : 2 ^ shift n <> 0)) as En.
  pose proof (Z.mod_pos_bound n _ Hu) as Hm.
  destruct (Z.eq_dec (shift R) (shift n)) as [E|NE].
  - rewrite E in HR. set (u := 2 ^ shift n) in *.
    pose proof (Z.div_mod R u (ltac:(lia) : u <> 0)) as ER.
    assert (R / u <= n / u) by (apply Z.div_le_mono; lia).
    assert (R / u * u <= round_half_even n u * u)
      by (apply Z.mul_le_mono_nonneg_r; lia).
    lia.
  - assert (Hlt : shift R < shift n) by lia.
    pose proof (shift_nonneg R) as HsR.
    assert (Hsn : shift n = Z.log2 n - 52) by (unfold shift in *; lia).
    assert (HlR : Z.log2 R < Z.log2 n) by (unfold shift in *; lia).
    assert (Hn0 : 0 < n).
    { destruct (Z.le_gt_cases n 0) as [H|H]; [|exact H].
      rewrite (Z.log2_nonpos n H) in HlR. pose proof (Z.log2_nonneg R). lia. }
    pose proof (Z.log2_spec n Hn0) as [Hlo _].
    assert (Hpow : 2 ^ Z.log2 n = 2 ^ 52 * 2 ^ shift n).
    { rewrite <- Z.pow_add_r by lia. f_equal. lia. }
    assert (HRlt : R < 2 ^ Z.log2 n).
    { destruct (Z.eq_dec R 0) as [->|HRnz]; [apply Z.pow_pos_nonneg; lia|].
      apply Z.log2_lt_pow2; lia. }
    set (u := 2 ^ shift n) in *.
    assert (2 ^ 52 <= n / u) by (apply Z.div_le_lower_bound; lia).
    assert (2 ^ 52 * u <= round_half_even n u * u)
      by (apply Z.mul_le_mono_nonneg_r; lia).
    lia.
Qed.

Lemma gap_below_one_pos : 0 < gap_below_one.
Proof. unfold gap_below_one. apply Z.pow_pos_nonneg; lia. Qed.

Lemma pow_gap_below_one k : 0 <= k -> 2 ^ (1021 + k) = 2 ^ k * gap_below_one.
Proof. intros Hk. unfold gap_below_one. rewrite Z.pow_add_r by lia. lia. Qed.

Lemma double_below_one r :
  is_double r = true -> r < 2 ^ 1074 -> r <= 2 ^ 1074 - 2 ^ 1021.
Proof.
  rewrite is_double_spec. intros [Hr0 Hm] Hlt.
  change 1074 with (1021 + 53) in *. rewrite pow_gap_below_one in * by lia.
  change (2 ^ 1021) with gap_below_one. pose proof gap_below_one_pos as Hp.
  destruct (Z.lt_ge_cases r (2 ^ 52 * gap_below_one)) as [Hsmall|Hbig].
  - change (2 ^ 53) with 9007199254740992. change (2 ^ 52) with 4503599627370496 in Hsmall. lia.
  - assert (Hr : 0 < r) by (change (2 ^ 52) with 4503599627370496 in Hbig; lia).
    assert (Hl : Z.log2 r = 1073).
    { apply Z.log2_unique; [lia|]. split.
      - change 1073 with (1021 + 52). rewrite pow_gap_below_one by lia. exact Hbig.
      - change (Z.succ 1073) with (1021 + 53). rewrite pow_gap_below_one by lia. exact Hlt. }
    unfold shift in Hm. rewrite Hl in Hm. change (Z.max (1073 - 52) 0) with 1021 in Hm.
    change (2 ^ 1021) with gap_below_one in Hm.
    pose proof (Z.div_mod r gap_below_one (ltac:(lia) : gap_below_one <> 0)) as Er.
    change (2 ^ 53) with 9007199254740992 in *.
    assert (r / gap_below_one < 9007199254740992) by (apply Z.div_lt_upper_bound; lia).
    assert (gap_below_one * (r / gap_below_one) <= gap_below_one * 9007199254740991)
      by (apply Z.mul_le_mono_nonneg_l; lia).
    lia.
Qed.

Lemma is_double_pow2_1093 : is_double (2 ^ 1093) = true.
Proof. vm_compute. reflexivity. Qed.

Lemma scaled_upper r :
  is_double r = true -> r < 2 ^ 1074 ->
  mul_int r 900000 <= of_int 900000 - 2 ^ 1041.
Proof.
  intros Hd Hlt. pose proof (double_below_one r Hd Hlt) as Hmax.
  apply is_double_spec in Hd as [Hr0 _].
  unfold mul_int, of_int. set (x := r * 900000).
  pose proof gap_below_one_pos as Hp.
  destruct (Z.lt_ge_cases x (2 ^ 1093)) as [Hsmall|Hbig].
  - pose proof (fl_le_double x (2 ^ 1093) (ltac:(lia)) is_double_pow2_1093) as Hfl.
    revert Hfl. change 1093 with (1021 + 72). change 1074 with (1021 + 53).
    change 1041 with (1021 + 20). rewrite !pow_gap_below_one by lia.
    change (2 ^ 72) with 4722366482869645213696.
    change (2 ^ 53) with 9007199254740992.
    change (2 ^ 20) with 1048576. lia.
  - revert Hmax Hbig. change 1093 with (1021 + 72). change 1074 with (1021 + 53).
    change 1041 with (1021 + 20). rewrite !pow_gap_below_one by lia.
    change (2 ^ 1021) with gap_below_one.
    change (2 ^ 72) with 4722366482869645213696.
    change (2 ^ 53) with 9007199254740992.
    change (2 ^ 20) with 1048576. intros Hmax Hbig.
    assert (Hl : Z.log2 x = 1093).
    { apply Z.log2_unique; [lia|]. split.
      - change 1093 with (1021 + 72). rewrite pow_gap_below_one by lia.
        change (2 ^ 72) with 4722366482869645213696. exact Hbig.
      - change (Z.succ 1093) with (1021 + 73). rewrite pow_gap_below_one by lia.
        change (2 ^ 73) with 9444732965739290427392. lia. }
    unfold fl, shift. rewrite Hl. change (Z.max (1093 - 52) 0) with (1021 + 20).
    rewrite pow_gap_below_one by lia. change (2 ^ 20) with 1048576. cbv zeta.
    set (u := 1048576 * gap_below_one).
    assert (Hu : 0 < u) by (unfold u; lia).
    pose proof (round_half_even_bounds x u Hu) as [_ Hq].
    pose proof (Z.div_mod x u (ltac:(lia) : u <> 0)) as Ex.
    pose proof (Z.mod_pos_bound x u Hu) as Hm.
    assert (HqK : x / u < 7730941132800000)
      by (apply Z.div_lt_upper_bound; unfold u; lia).
    assert (Hr : round_half_even x u <= 7730941132799999).
    { destruct (Z.eq_dec (x / u) 7730941132799999) as [E|NE]; [|lia].
      rewrite round_half_even_below; [lia | lia |].
      rewrite E in Ex. unfold u in *. lia. }
    assert (round_half_even x u * u <= 7730941132799999 * u)
      by (apply Z.mul_le_mono_nonneg_r; lia).
    unfold u in *. lia.
Qed.

Lemma is_double_100000 : is_double (of_int 100000) = true.
Proof. vm_compute. reflexivity. Qed.

Lemma is_double_below_1000000 : is_double (of_int 1000000 - 2 ^ 1041) = true.
Proof. vm_compute. reflexivity. Qed.

Lemma floor_scaled_random_range r :
  is_double r = true -> r < 2 ^ 1074 ->
  100000 <= floor (add (of_int 100000) (mul_int r 900000)) <= 999999.
Proof.
  intros Hd Hlt. pose proof (scaled_upper r Hd Hlt) as Hup.
  assert (H0 : 0 <= mul_int r 900000).
  { apply fl_nonneg. apply is_double_spec in Hd. lia. }
  unfold add. set (y := mul_int r 900000) in *.
  pose proof (double_le_fl (of_int 100000 + y) (of_int 100000)
                (ltac:(lia)) is_double_100000) as Hlo.
  assert (Hs : 0 < 2 ^ 1074) by (apply Z.pow_pos_nonneg; lia).
  assert (Hrange : 0 <= of_int 100000 + y <= of_int 1000000 - 2 ^ 1041).
  { unfold of_int in *. lia. }
  pose proof (fl_le_double _ _ Hrange is_double_below_1000000) as Hhi.
  assert (Hp : 0 < 2 ^ 1041) by (apply Z.pow_pos_nonneg; lia).
  unfold floor. split.
  - apply Z.div_le_lower_bound; [lia|]. unfold of_int in *. lia.
  - assert (fl (of_int 100000 + y) / 2 ^ 1074 < 1000000); [|lia].
    apply Z.div_lt_upper_bound; [lia|]. unfold of_int in *. lia.
Qed.

(** ** Decimal numerals *)

Ltac div_lia := Z.div_mod_to_equations; lia.

Lemma digit_cases d :
  0 <= d <= 9 ->
  d = 0 \/ d = 1 \/ d = 2 \/ d = 3 \/ d = 4 \/ d = 5 \/ d = 6 \/ d = 7 \/ d = 8 \/ d = 9.
Proof. lia. Qed.

Lemma digit_is_decimal d : 0 <= d <= 9 -> is_decimal_digit (digit d) = true.
Proof.
  intros H. destruct (digit_cases d H) as [->|[->|[->|[->|[->|[->|[->|[->|[->| ->]]]]]]]]];
    reflexivity.
Qed.

Lemma digit_value d : 0 <= d <= 9 -> Z.of_nat (nat_of_ascii (digit d)) - 48 = d.
Proof.
  intros H. destruct (digit_cases d H) as [->|[->|[->|[->|[->|[->|[->|[->|[->| ->]]]]]]]]];
    reflexivity.
Qed.

Lemma digit_nonzero d : 1 <= d <= 9 -> Ascii.eqb (digit d) "0" = false.
Proof.
  intros H. destruct (digit_cases d ltac:(lia)) as [->|[->|[->|[->|[->|[->|[->|[->|[->| ->]]]]]]]]];
    try reflexivity; lia.
Qed.

Lemma digits_of_step fuel n acc :
  n / 10 <> 0 ->
  digits_of (S fuel) n acc = digits_of fuel (n / 10) (String (digit (n mod 10)) acc).
Proof. intros H. cbn [digits_of]. destruct (Z.eqb_spec (n / 10) 0); [contradiction | reflexivity]. Qed.

Lemma digits_of_last fuel n acc :
  n / 10 = 0 ->
  digits_of (S fuel) n acc = String (digit (n mod 10)) acc.
Proof. intros H. cbn [digits_of]. rewrite H. reflexivity. Qed.

Lemma Number_toString_six n :
  100000 <= n <= 999999 ->
  Number_toString n =
    String (digit (n / 100000))
   (String (digit (n / 10000 mod 10))
   (String (digit (n / 1000 mod 10))
   (String (digit (n / 100 mod 10))
   (String (digit (n / 10 mod 10))
   (String (digit (n mod 10)) EmptyString))))).
Proof.
  intros Hn. unfold Number_toString.
  assert (Hl : 16 <= Z.log2 n) by (apply Z.log2_le_pow2; lia).
  assert (Hf : exists k, Z.to_nat (Z.log2 n) = (5 + k)%nat)
    by (exists (Z.to_nat (Z.log2 n) - 5)%nat; lia).
  destruct Hf as [k ->]. cbn [Nat.add].
  clear Hl. do 5 (rewrite digits_of_step by div_lia).
  rewrite digits_of_last by div_lia.
  repeat match goal with
         | |- String _ _ = String _ _ => f_equal
         | |- digit _ = digit _ => f_equal
         end; div_lia.
Qed.

Lemma Number_toString_six_digit n :
  100000 <= n <= 999999 -> six_digit_code (Number_toString n) = true.
Proof.
  intros Hn. rewrite Number_toString_six by exact Hn.
  unfold six_digit_code. cbn [String.length all_digits Nat.eqb].
  rewrite !digit_is_decimal by div_lia.
  rewrite digit_nonzero by div_lia. reflexivity.
Qed.

Lemma Number_toString_value n :
  100000 <= n <= 999999 -> decimal_value (Number_toString n) = n.
Proof.
  intros Hn. rewrite Number_toString_six by exact Hn.
  unfold decimal_value. cbn [decimal_value_from].
  rewrite !digit_value by div_lia. div_lia.
Qed.

(** On sample draws (zero, subnormal, mid-range, the largest below 1) the
    rounding model computes what the Standard Library's IEEE 754
    specification computes. *)
Example fl_agrees_with_SpecFloat :
  forallb (fun r =>
      match spec_scaled_random r with
      | Some v => v =? add (of_int 100000) (mul_int r 900000)
      | None => false
      end)
    [0; 1; 3; 2 ^ 52 + 1; 2 ^ 53 - 1; 2 ^ 1073; 2 ^ 1073 + 2 ^ 1021;
     2 ^ 1074 - 2 ^ 1022; 2 ^ 1074 - 2 ^ 1021; (2 ^ 52 + 12345) * 2 ^ 1005;
     7 * 2 ^ 1057; (2 ^ 53 - 3) * 2 ^ 1019; 12345678901234567 * 2 ^ 1000]
  = true.
Proof. vm_compute. reflexivity. Qed.

(** ** The handlers *)

(** *** Code generation *)

(** C8: whenever [Math.random()] yields a binary64 number in [0, 1), the
    code [request-order-otp] generates, stores and mails is the decimal
    numeral of an integer between 100000 and 999999 inclusive: six decimal
    digits, the first of which is not a zero. *)
Theorem generated_code_six_digits (w : world) (email : string) (st : stores) :
  is_double (Math_random w) = true ->
  Math_random w < 2 ^ 1074 ->
  exists n,
    100000 <= n <= 999999 /\
    generate_code w = Number_toString n /\
    six_digit_code (generate_code w) = true /\
    decimal_value (generate_code w) = n /\
    code <$> otpStorage (stores_of (request_order_otp w email st)) !! email
      = Some (generate_code w) /\
    calls_of (request_order_otp w email st)
      = [EmailsSend (otp_mail email (generate_code w))].
Proof.
  intros Hd Hlt.
  pose proof (floor_scaled_random_range _ Hd Hlt) as Hn.
  unfold generate_code.
  set (n := floor (add (of_int 100000) (mul_int (Math_random w) 900000))) in *.
  exists n. split; [exact Hn|]. split; [reflexivity|].
  split; [apply Number_toString_six_digit; exact Hn|].
  split; [apply Number_toString_value; exact Hn|].
  unfold request_order_otp, stores_of, calls_of.
  destruct (resend_emails_send w _); cbn; rewrite lookup_insert_eq; split; reflexivity.
Qed.

Lemma generated_code_six_digits_witness :
  exists n,
    100000 <= n <= 999999 /\
    generate_code top_draw_world = Number_toString n /\
    six_digit_code (generate_code top_draw_world) = true /\
    decimal_value (generate_code top_draw_world) = n /\
    code <$> otpStorage (stores_of (request_order_otp top_draw_world "a@x.com" sample_stores))
               !! "a@x.com"
      = Some (generate_code top_draw_world) /\
    calls_of (request_order_otp top_draw_world "a@x.com" sample_stores)
      = [EmailsSend (otp_mail "a@x.com" (generate_code top_draw_world))].
Proof.
  apply (generated_code_six_digits top_draw_world "a@x.com" sample_stores).
  - vm_compute. reflexivity.
  - vm_compute. reflexivity.
Defined.

(** The largest draw yields the largest code. *)
Example generate_code_top_draw : generate_code top_draw_world = "999999".
Proof. vm_compute. reflexivity. Qed.

(** The bound rests on the draw being a binary64 number: the real number
    1 - 2^-1074 is below 1 too, but it is no binary64 number, and the
    arithmetic would send it to 1000000. *)
Example draw_off_the_grid :
  is_double (2 ^ 1074 - 1) = false /\
  floor (add (of_int 100000) (mul_int (2 ^ 1074 - 1) 900000)) = 1000000.
Proof. vm_compute. split; reflexivity. Qed.

(** The smallest draw yields the smallest code. *)
Example generate_code_zero_draw : generate_code (calm_world 0) = "100000".
Proof. vm_compute. reflexivity. Qed.

(** *** Verification: the code check *)

Lemma invalid_or_expired_iff (w : world) (stored : option otp_entry) (c : string) :
  invalid_or_expired w stored c = true <->
  stored = None \/
  exists s, stored = Some s /\ (code s <> c \/ Date_now w 0 > expires s).
Proof.
  unfold invalid_or_expired. destruct stored as [[sc se]|].
  - rewrite orb_true_iff, !bool_decide_eq_true. split.
    + intros H. right. eexists. split; [reflexivity | exact H].
    + intros [H|[s [[= <-] H]]]; [discriminate | exact H].
  - split; [intros _; left; reflexivity | reflexivity].
Qed.

Lemma invalid_or_expired_pass (w : world) (s : otp_entry) :
  Date_now w 0 <= expires s ->
  invalid_or_expired w (Some s) (code s) = false.
Proof.
  intros Ht. destruct s as [sc se]. cbn in *.
  rewrite bool_decide_eq_false_2 by (intros H; exact (H eq_refl)).
  rewrite bool_decide_eq_false_2 by lia. reflexivity.
Qed.

Lemma verify_rejected (w : world) (e c : string) (st : stores) :
  invalid_or_expired w (otpStorage st !! e) c = true ->
  verify_order_otp w e c st = (InvalidOrExpired, st, []).
Proof. intros H. unfold verify_order_otp. rewrite H. reflexivity. Qed.

(** What every run that passes the code check has in common, whatever the
    enrichment does. *)
Lemma verify_accepted (w : world) (e c : string) (st : stores) :
  invalid_or_expired w (otpStorage st !! e) c = false ->
  is_success (outcome_of (verify_order_otp w e c st)) = true /\
  token_of (outcome_of (verify_order_otp w e c st)) = Some (randomUUID w) /\
  stores_of (verify_order_otp w e c st) =
    {| otpStorage := delete e (otpStorage st);
       activeSessions :=
         <[randomUUID w := {| email := e; createdAt := Date_now w 1 |}]>
           (activeSessions st) |}.
Proof.
  intros H. unfold verify_order_otp. rewrite H.
  destruct (getCustomers_execute w _ 1) as [err|[|cust more]]; cbn [head];
    [ | | destruct (getCustomerOrders_execute w _ 10) ];
    repeat split; reflexivity.
Qed.

Lemma verify_outcome_iff (w : world) (e c : string) (st : stores) :
  outcome_of (verify_order_otp w e c st) = InvalidOrExpired <->
  invalid_or_expired w (otpStorage st !! e) c = true.
Proof.
  split.
  - intros Hout. destruct (invalid_or_expired w (otpStorage st !! e) c) eqn:E;
      [reflexivity|].
    apply verify_accepted in E as [Hs _]. rewrite Hout in Hs. discriminate.
  - intros H. rewrite verify_rejected by exact H. reflexivity.
Qed.

Lemma verify_success_iff (w : world) (e c : string) (st : stores) :
  is_success (outcome_of (verify_order_otp w e c st)) = true <->
  invalid_or_expired w (otpStorage st !! e) c = false.
Proof.
  split.
  - intros Hs. destruct (invalid_or_expired w (otpStorage st !! e) c) eqn:E;
      [|reflexivity].
    rewrite verify_rejected in Hs by exact E. discriminate.
  - intros H. apply verify_accepted. exact H.
Qed.

(** C1: [verify-order-otp] answers with the "Invalid or expired OTP" error
    exactly when no OTP is pending for the email, or the pending code is
    not the submitted one, or the clock has passed the pending expiry.
    Otherwise it removes the pending OTP, records a session under the
    token it just drew from [randomUUID] (holding the email and the clock
    reading taken at that point) and hands that token back; verifying
    again with the same email and code, at any time, then yields the
    "Invalid or expired OTP" error. *)
Theorem verify_order_otp_single_use (w : world) (e c : string) (st : stores) :
  (outcome_of (verify_order_otp w e c st) = InvalidOrExpired <->
     otpStorage st !! e = None \/
     exists s, otpStorage st !! e = Some s /\
               (code s <> c \/ Date_now w 0 > expires s)) /\
  (outcome_of (verify_order_otp w e c st) <> InvalidOrExpired ->
     otpStorage (stores_of (verify_order_otp w e c st)) = delete e (otpStorage st) /\
     otpStorage (stores_of (verify_order_otp w e c st)) !! e = None /\
     activeSessions (stores_of (verify_order_otp w e c st)) =
       <[randomUUID w := {| email := e; createdAt := Date_now w 1 |}]>
         (activeSessions st) /\
     activeSessions (stores_of (verify_order_otp w e c st)) !! randomUUID w =
       Some {| email := e; createdAt := Date_now w 1 |} /\
     token_of (outcome_of (verify_order_otp w e c st)) = Some (randomUUID w) /\
     forall w',
       outcome_of (verify_order_otp w' e c (stores_of (verify_order_otp w e c st)))
         = InvalidOrExpired).
Proof.
  split.
  - rewrite verify_outcome_iff. apply invalid_or_expired_iff.
  - intros Hok.
    destruct (invalid_or_expired w (otpStorage st !! e) c) eqn:E.
    { exfalso. apply Hok. apply verify_outcome_iff. exact E. }
    destruct (verify_accepted w e c st E) as (_ & Htok & ->). cbn.
    rewrite lookup_delete_eq, lookup_insert_eq.
    repeat split; try reflexivity; try exact Htok.
    intros w'. apply verify_outcome_iff. cbn. rewrite lookup_delete_eq. reflexivity.
Qed.

(** C9: when [verify-order-otp] answers with the "Invalid or expired OTP"
    error, it leaves both maps as they were and calls no collaborator; in
    particular a pending OTP survives the failed attempt and is accepted
    afterwards when its own code is submitted before its expiry. *)
Theorem verify_failure_changes_nothing (w : world) (e c : string) (st : stores) :
  outcome_of (verify_order_otp w e c st) = InvalidOrExpired ->
  stores_of (verify_order_otp w e c st) = st /\
  calls_of (verify_order_otp w e c st) = [] /\
  forall s w',
    otpStorage st !! e = Some s ->
    Date_now w' 0 <= expires s ->
    is_success
      (outcome_of (verify_order_otp w' e (code s) (stores_of (verify_order_otp w e c st))))
      = true.
Proof.
  intros Hout. apply verify_outcome_iff in Hout.
  rewrite verify_rejected by exact Hout. cbn.
  repeat split. intros s w' Hs Ht.
  apply verify_accepted. rewrite Hs. apply invalid_or_expired_pass. exact Ht.
Qed.

Lemma verify_failure_changes_nothing_witness :
  stores_of (verify_order_otp (calm_world 2000) "a@x.com" "000000" sample_stores)
    = sample_stores /\
  calls_of (verify_order_otp (calm_world 2000) "a@x.com" "000000" sample_stores) = [] /\
  forall s w',
    otpStorage sample_stores !! "a@x.com" = Some s ->
    Date_now w' 0 <= expires s ->
    is_success
      (outcome_of (verify_order_otp w' "a@x.com" (code s)
         (stores_of (verify_order_otp (calm_world 2000) "a@x.com" "000000" sample_stores))))
      = true.
Proof.
  apply (verify_failure_changes_nothing (calm_world 2000) "a@x.com" "000000" sample_stores).
  vm_compute. reflexivity.
Defined.

(** *** Issuance *)

Lemma request_stores (w : world) (e : string) (st : stores) :
  stores_of (request_order_otp w e st) =
    {| otpStorage :=
         <[e := {| code := generate_code w; expires := Date_now w 0 + 5 * 60 * 1000 |}]>
           (otpStorage st);
       activeSessions := activeSessions st |}.
Proof.
  unfold request_order_otp, stores_of.
  destruct (resend_emails_send w _); reflexivity.
Qed.

Lemma entries_for_insert {V} (k : string) (v : V) (m : gmap string V) :
  entries_for k (<[k := v]> m) = 1%nat.
Proof.
  unfold entries_for. rewrite <- insert_delete_eq.
  rewrite (Permutation_length
             (filter_Permutation _ _ _
                (map_to_list_insert (delete k m) k v (lookup_delete_eq m k)))).
  rewrite filter_cons_True by reflexivity. cbn [length]. f_equal.
  destruct (filter (fun kv : string * V => kv.1 = k) (map_to_list (delete k m)))
    as [|[k' v'] l] eqn:Ef; [reflexivity|].
  assert (Hin : (k', v') ∈ filter (fun kv : string * V => kv.1 = k)
                             (map_to_list (delete k m)))
    by (rewrite Ef; left).
  apply list_elem_of_filter in Hin as [Hk Hin]. cbn in Hk. subst k'.
  apply elem_of_map_to_list in Hin. rewrite lookup_delete_eq in Hin. discriminate.
Qed.

Lemma entries_for_absent {V} (k : string) (m : gmap string V) :
  m !! k = None -> entries_for k m = 0%nat.
Proof.
  intros Hk. unfold entries_for.
  destruct (filter (fun kv : string * V => kv.1 = k) (map_to_list m))
    as [|[k' v'] l] eqn:Ef; [reflexivity|].
  assert (Hin : (k', v') ∈ filter (fun kv : string * V => kv.1 = k) (map_to_list m))
    by (rewrite Ef; left).
  apply list_elem_of_filter in Hin as [Hk' Hin]. cbn in Hk'. subst k'.
  apply elem_of_map_to_list in Hin. rewrite Hk in Hin. discriminate.
Qed.

(** A map never holds two entries under one key. *)
Lemma entries_for_at_most_one {V} (k : string) (m : gmap string V) :
  (entries_for k m <= 1)%nat.
Proof.
  destruct (m !! k) as [v|] eqn:Hk.
  - rewrite <- (insert_id m k v Hk), entries_for_insert. lia.
  - rewrite entries_for_absent by exact Hk. lia.
Qed.

Lemma request_stored_entry (w : world) (e : string) (st : stores) :
  otpStorage (stores_of (request_order_otp w e st)) !! e =
    Some {| code := generate_code w; expires := Date_now w 0 + 300 * 1000 |}.
Proof.
  rewrite request_stores. cbn [otpStorage]. rewrite lookup_insert_eq. reflexivity.
Qed.

Lemma issued_code_accepted (w w' : world) (e : string) (st : stores) :
  Date_now w' 0 <= Date_now w 0 + 300 * 1000 ->
  is_success (outcome_of (verify_order_otp w' e (generate_code w)
                (stores_of (request_order_otp w e st)))) = true.
Proof.
  intros Ht. apply verify_success_iff. rewrite request_stored_entry.
  apply (invalid_or_expired_pass w'
           {| code := generate_code w; expires := Date_now w 0 + 300 * 1000 |}).
  exact Ht.
Qed.

(** C5: after two issuances for the same email in a row, the credential
    store is the original one with the second OTP put under the email:
    one entry for that email, holding the second code and expiry, nothing
    of the first issuance left.  A verification is then accepted exactly
    when it submits the second code no later than the second expiry. *)
Theorem second_issuance_overwrites (w1 w2 : world) (e : string) (st : stores) :
  let st1 := stores_of (request_order_otp w1 e st) in
  let st2 := stores_of (request_order_otp w2 e st1) in
  let second := {| code := generate_code w2; expires := Date_now w2 0 + 5 * 60 * 1000 |} in
  otpStorage st2 = <[e := second]> (otpStorage st) /\
  otpStorage st2 !! e = Some second /\
  entries_for e (otpStorage st1) = 1%nat /\
  entries_for e (otpStorage st2) = 1%nat /\
  size (otpStorage st2) = size (otpStorage st1) /\
  (forall st' : stores, (entries_for e (otpStorage st') <= 1)%nat) /\
  forall w c,
    is_success (outcome_of (verify_order_otp w e c st2)) = true <->
    c = generate_code w2 /\ Date_now w 0 <= Date_now w2 0 + 5 * 60 * 1000.
Proof.
  cbv zeta. rewrite !request_stores. cbn [otpStorage activeSessions].
  rewrite lookup_insert_eq, !entries_for_insert.
  split; [apply insert_insert_eq|].
  do 3 (split; [reflexivity|]).
  split; [apply map_size_insert_Some; rewrite lookup_insert_eq; eauto|].
  split; [intros st'; apply entries_for_at_most_one|].
  intros w c. rewrite verify_success_iff. cbn [otpStorage].
  rewrite lookup_insert_eq. cbn [invalid_or_expired].
  rewrite orb_false_iff, !bool_decide_eq_false. split.
  - intros [Hc Ht]. apply dec_stable in Hc. split; [symmetry; exact Hc | lia].
  - intros [-> Ht]. split; [intros H; exact (H eq_refl) | lia].
Qed.

(** C6: the OTP that [request-order-otp] stores expires 300 seconds
    (300000 ms) after the clock reading taken at issuance; a verification
    whose clock reading is later than the pending expiry answers with the
    "Invalid or expired OTP" error even when it submits the pending code,
    while one made at the expiry instant or before is still accepted. *)
Theorem otp_expires_after_300_seconds (w : world) (e : string) (st : stores) :
  otpStorage (stores_of (request_order_otp w e st)) !! e =
    Some {| code := generate_code w; expires := Date_now w 0 + 300 * 1000 |} /\
  (forall w',
     Date_now w' 0 > Date_now w 0 + 300 * 1000 ->
     outcome_of (verify_order_otp w' e (generate_code w)
                   (stores_of (request_order_otp w e st))) = InvalidOrExpired) /\
  (forall w',
     Date_now w' 0 <= Date_now w 0 + 300 * 1000 ->
     is_success (outcome_of (verify_order_otp w' e (generate_code w)
                   (stores_of (request_order_otp w e st)))) = true) /\
  (forall w' e' st' s,
     otpStorage st' !! e' = Some s ->
     Date_now w' 0 > expires s ->
     outcome_of (verify_order_otp w' e' (code s) st') = InvalidOrExpired).
Proof.
  split; [apply request_stored_entry|].
  split; [|split].
  - intros w' Ht. apply verify_outcome_iff. rewrite request_stored_entry.
    apply invalid_or_expired_iff. right.
    eexists. split; [reflexivity|]. right. exact Ht.
  - intros w' Ht. apply issued_code_accepted. exact Ht.
  - intros w' e' st' s Hs Ht. apply verify_outcome_iff. rewrite Hs.
    apply invalid_or_expired_iff. right. exists s. split; [reflexivity|].
    right. exact Ht.
Qed.

(** X17: when the promise of [resend.emails.send] rejects,
    [request-order-otp] still returns (it does not reject): an error
    result carrying the failure.  The OTP it stored before sending stays
    in the credential store, and a verification submitting that code no
    later than its expiry is accepted. *)
Theorem mail_failure_keeps_otp (w : world) (e err : string) (st : stores) :
  resend_emails_send w (otp_mail e (generate_code w)) = inl err ->
  outcome_of (request_order_otp w e st) =
    Returns (error_result ("Failed to send OTP: " ++ err)) /\
  otpStorage (stores_of (request_order_otp w e st)) !! e =
    Some {| code := generate_code w; expires := Date_now w 0 + 300 * 1000 |} /\
  forall w',
    Date_now w' 0 <= Date_now w 0 + 300 * 1000 ->
    is_success (outcome_of (verify_order_otp w' e (generate_code w)
                  (stores_of (request_order_otp w e st)))) = true.
Proof.
  intros Hsend.
  split; [|split; [apply request_stored_entry|]].
  - unfold request_order_otp, outcome_of. rewrite Hsend. reflexivity.
  - intros w' Ht. apply issued_code_accepted. exact Ht.
Qed.

Lemma mail_failure_keeps_otp_witness :
  outcome_of (request_order_otp (mail_down_world 1000) "b@x.com" sample_stores) =
    Returns (error_result ("Failed to send OTP: " ++ "Error: connect ECONNREFUSED")) /\
  otpStorage (stores_of (request_order_otp (mail_down_world 1000) "b@x.com" sample_stores))
    !! "b@x.com" =
    Some {| code := generate_code (mail_down_world 1000);
            expires := Date_now (mail_down_world 1000) 0 + 300 * 1000 |} /\
  forall w',
    Date_now w' 0 <= Date_now (mail_down_world 1000) 0 + 300 * 1000 ->
    is_success (outcome_of (verify_order_otp w' "b@x.com" (generate_code (mail_down_world 1000))
                  (stores_of (request_order_otp (mail_down_world 1000) "b@x.com" sample_stores))))
      = true.
Proof.
  apply (mail_failure_keeps_otp (mail_down_world 1000) "b@x.com"
           "Error: connect ECONNREFUSED" sample_stores).
  reflexivity.
Defined.

(** [request-order-otp] never rejects, whatever the mail sender does. *)
Lemma request_order_otp_returns (w : world) (e : string) (st : stores) :
  exists r, outcome_of (request_order_otp w e st) = Returns r.
Proof.
  unfold request_order_otp, outcome_of.
  destruct (resend_emails_send w _); eexists; reflexivity.
Qed.

(** *** Verification: enrichment *)

(** C4: once the code check has passed, [verify-order-otp] returns a
    non-error result carrying the session token whenever enrichment
    breaks down: with the fixed no-customer message when the customer
    lookup finds nobody, and with the stringified error appended to the
    fixed failure message when the customer lookup or the order lookup
    rejects.  The session has been stored all the same. *)
Theorem enrichment_failure_keeps_success (w : world) (e c : string) (st : stores) :
  invalid_or_expired w (otpStorage st !! e) c = false ->
  let out := outcome_of (verify_order_otp w e c st) in
  let token := randomUUID w in
  (getCustomers_execute w ("email:" ++ e) 1 = inr [] ->
     out = Returns (degraded token "Verified, but no customer found with this email.")) /\
  (forall err,
     getCustomers_execute w ("email:" ++ e) 1 = inl err ->
     out = Returns (degraded token ("Verified, but failed to retrieve orders: " ++ err))) /\
  (forall cust more err,
     getCustomers_execute w ("email:" ++ e) 1 = inr (cust :: more) ->
     getCustomerOrders_execute w (pop (split "/" (id cust))) 10 = inl err ->
     out = Returns (degraded token ("Verified, but failed to retrieve orders: " ++ err))) /\
  (forall msg, is_success (Returns (degraded token msg)) = true /\
               token_of (Returns (degraded token msg)) = Some token /\
               message_of (Returns (degraded token msg)) = Some msg) /\
  is_success out = true /\
  token_of out = Some token /\
  activeSessions (stores_of (verify_order_otp w e c st)) !! token =
    Some {| email := e; createdAt := Date_now w 1 |}.
Proof.
  intros Hpass. cbv zeta.
  destruct (verify_accepted w e c st Hpass) as (Hs & Htok & Hst).
  rewrite Hst. cbn [activeSessions]. rewrite lookup_insert_eq.
  unfold verify_order_otp, outcome_of in *. rewrite Hpass in *.
  repeat apply conj; try assumption; try reflexivity.
  - intros H. rewrite H. reflexivity.
  - intros err H. rewrite H. reflexivity.
  - intros cust more err H1 H2. rewrite H1. cbn [head]. rewrite H2. reflexivity.
  - intros msg. repeat split.
Qed.

Lemma enrichment_failure_keeps_success_witness :
  outcome_of (verify_order_otp (shopify_down_world 2000) "a@x.com" "123456" sample_stores) =
    Returns (degraded sample_uuid
               ("Verified, but failed to retrieve orders: " ++
                "Error: GraphQL Error (Code: 503)")) /\
  is_success
    (outcome_of (verify_order_otp (shopify_down_world 2000) "a@x.com" "123456" sample_stores))
    = true.
Proof.
  destruct (enrichment_failure_keeps_success
              (shopify_down_world 2000) "a@x.com" "123456" sample_stores)
    as (_ & Hthrow & _ & _ & Hok & _).
  - vm_compute. reflexivity.
  - split; [apply Hthrow; reflexivity | exact Hok].
Defined.

(** *** The session gate *)

Lemma get_orders_unknown (w : world) (t : string) (q : orders_query) (st : stores) :
  activeSessions st !! t = None ->
  get_orders w t q st = (Returns (error_result "Unauthorized: Invalid token"), st, []).
Proof. intros H. unfold get_orders. rewrite H. reflexivity. Qed.

Lemma get_orders_expired (w : world) (t : string) (q : orders_query) (st : stores)
    (s : session) :
  activeSessions st !! t = Some s ->
  Date_now w 0 - createdAt s > 3600 * 1000 ->
  get_orders w t q st =
    (Returns (error_result "Unauthorized: Token expired"),
     {| otpStorage := otpStorage st; activeSessions := delete t (activeSessions st) |},
     []).
Proof.
  intros H Ht. unfold get_orders. rewrite H.
  rewrite bool_decide_eq_true_2 by exact Ht. reflexivity.
Qed.

Lemma get_orders_fresh (w : world) (t : string) (q : orders_query) (st : stores)
    (s : session) :
  activeSessions st !! t = Some s ->
  Date_now w 0 - createdAt s <= 3600 * 1000 ->
  get_orders w t q st =
    (match getOrders_execute w q with
     | inr result => Returns (text_result (JSON_stringify result))
     | inl error => Throws error
     end, st, [GetOrders q]).
Proof.
  intros H Ht. unfold get_orders. rewrite H.
  rewrite bool_decide_eq_false_2 by lia.
  destruct (getOrders_execute w q); reflexivity.
Qed.

(** C3: [get-orders] called with a token that has no session, or whose
    session is older than 3600000 ms, returns an [Unauthorized] error
    result without calling the order tool; in the second case the session
    is removed from the session store (and nothing else changes).  With a
    session that is at most 3600000 ms old, the order tool is called with
    the remaining arguments and the handler settles with what the tool
    yields. *)
Theorem session_gate (w : world) (t : string) (q : orders_query) (st : stores) :
  (activeSessions st !! t = None ->
     is_unauthorized (outcome_of (get_orders w t q st)) = true /\
     calls_of (get_orders w t q st) = [] /\
     stores_of (get_orders w t q st) = st) /\
  (forall s,
     activeSessions st !! t = Some s ->
     Date_now w 0 - createdAt s > 3600 * 1000 ->
     is_unauthorized (outcome_of (get_orders w t q st)) = true /\
     calls_of (get_orders w t q st) = [] /\
     activeSessions (stores_of (get_orders w t q st)) = delete t (activeSessions st) /\
     activeSessions (stores_of (get_orders w t q st)) !! t = None /\
     otpStorage (stores_of (get_orders w t q st)) = otpStorage st) /\
  (forall s,
     activeSessions st !! t = Some s ->
     Date_now w 0 - createdAt s <= 3600 * 1000 ->
     calls_of (get_orders w t q st) = [GetOrders q] /\
     is_unauthorized (outcome_of (get_orders w t q st)) = false /\
     outcome_of (get_orders w t q st) =
       match getOrders_execute w q with
       | inr result => Returns (text_result (JSON_stringify result))
       | inl error => Throws error
       end).
Proof.
  split; [|split].
  - intros H. rewrite get_orders_unknown by exact H. repeat split.
  - intros s H Ht. rewrite (get_orders_expired w t q st s H Ht). cbn.
    rewrite lookup_delete_eq. repeat split.
  - intros s H Ht. rewrite (get_orders_fresh w t q st s H Ht). cbn.
    destruct (getOrders_execute w q); repeat split.
Qed.

(** C2, as the code has it: an unknown token and an expired token are both
    answered with an error result whose message starts with
    [Unauthorized], but the two messages are different, so the caller can
    tell the sub-causes apart. *)
Theorem gate_rejections_distinguishable (w1 w2 : world) (t1 t2 : string)
    (q1 q2 : orders_query) (st1 st2 : stores) (s : session) :
  activeSessions st1 !! t1 = None ->
  activeSessions st2 !! t2 = Some s ->
  Date_now w2 0 - createdAt s > 3600 * 1000 ->
  outcome_of (get_orders w1 t1 q1 st1) =
    Returns (error_result "Unauthorized: Invalid token") /\
  outcome_of (get_orders w2 t2 q2 st2) =
    Returns (error_result "Unauthorized: Token expired") /\
  is_unauthorized (outcome_of (get_orders w1 t1 q1 st1)) = true /\
  is_unauthorized (outcome_of (get_orders w2 t2 q2 st2)) = true /\
  outcome_of (get_orders w1 t1 q1 st1) <> outcome_of (get_orders w2 t2 q2 st2).
Proof.
  intros H1 H2 Ht.
  rewrite (get_orders_unknown w1 t1 q1 st1 H1).
  rewrite (get_orders_expired w2 t2 q2 st2 s H2 Ht).
  cbn. repeat split. discriminate.
Qed.

Lemma gate_rejections_distinguishable_witness :
  outcome_of (get_orders (calm_world 3601001) "bogus" sample_query sample_stores) =
    Returns (error_result "Unauthorized: Invalid token") /\
  outcome_of (get_orders (calm_world 3601001) "T" sample_query sample_stores) =
    Returns (error_result "Unauthorized: Token expired") /\
  is_unauthorized (outcome_of (get_orders (calm_world 3601001) "bogus" sample_query sample_stores))
    = true /\
  is_unauthorized (outcome_of (get_orders (calm_world 3601001) "T" sample_query sample_stores))
    = true /\
  outcome_of (get_orders (calm_world 3601001) "bogus" sample_query sample_stores) <>
  outcome_of (get_orders (calm_world 3601001) "T" sample_query sample_stores).
Proof.
  apply (gate_rejections_distinguishable
           (calm_world 3601001) (calm_world 3601001) "bogus" "T"
           sample_query sample_query sample_stores sample_stores
           {| email := "a@x.com"; createdAt := 1000 |}).
  - vm_compute. reflexivity.
  - vm_compute. reflexivity.
  - vm_compute. reflexivity.
Defined.

(** C2, as stated, fails: with the token [bogus] unknown and the session
    of token [T] expired, both calls are rejected, yet the messages
    returned to the caller are not the same. *)
Lemma gate_single_message_counterexample :
  activeSessions sample_stores !! "bogus" = None /\
  (exists s, activeSessions sample_stores !! "T" = Some s /\
             Date_now (calm_world 3601001) 0 - createdAt s > 3600 * 1000) /\
  content_of (outcome_of (get_orders (calm_world 3601001) "bogus" sample_query sample_stores))
    = Some (Lit "Unauthorized: Invalid token") /\
  content_of (outcome_of (get_orders (calm_world 3601001) "T" sample_query sample_stores))
    = Some (Lit "Unauthorized: Token expired") /\
  content_of (outcome_of (get_orders (calm_world 3601001) "bogus" sample_query sample_stores))
    <>
  content_of (outcome_of (get_orders (calm_world 3601001) "T" sample_query sample_stores)).
Proof.
  split; [vm_compute; reflexivity|].
  split.
  { exists {| email := "a@x.com"; createdAt := 1000 |}.
    split; vm_compute; reflexivity. }
  split; [vm_compute; reflexivity|].
  split; [vm_compute; reflexivity|].
  vm_compute. discriminate.
Qed.

Lemma get_orders_repeatedly_fresh (calls : list (world * orders_query)) (t : string)
    (st : stores) (s : session) :
  activeSessions st !! t = Some s ->
  Forall (fun wq => Date_now wq.1 0 - createdAt s <= 3600 * 1000) calls ->
  get_orders_repeatedly calls t st =
    (map (fun wq =>
            (match getOrders_execute wq.1 wq.2 with
             | inr result => Returns (text_result (JSON_stringify result))
             | inl error => Throws error
             end, [GetOrders wq.2])) calls,
     st).
Proof.
  intros Hs Hall. induction Hall as [|[w q] calls Ht _ IH].
  - reflexivity.
  - cbn [get_orders_repeatedly map].
    rewrite (get_orders_fresh w t q st s Hs Ht).
    unfold stores_of, outcome_of, calls_of. cbn [fst snd].
    rewrite IH. reflexivity.
Qed.

(** C10: a [get-orders] call that passes the gate leaves both stores
    exactly as they were; hence any number of successive calls with the
    same token, each made while the session is at most 3600000 ms old,
    all pass the gate (each one dispatches the order tool and none is
    answered [Unauthorized]) and the stores at the end are still the
    initial ones. *)
Theorem gate_pass_keeps_session (calls : list (world * orders_query)) (t : string)
    (st : stores) (s : session) :
  activeSessions st !! t = Some s ->
  Forall (fun wq => Date_now wq.1 0 - createdAt s <= 3600 * 1000) calls ->
  (forall w q,
     Date_now w 0 - createdAt s <= 3600 * 1000 ->
     stores_of (get_orders w t q st) = st) /\
  (get_orders_repeatedly calls t st).2 = st /\
  activeSessions (get_orders_repeatedly calls t st).2 !! t = Some s /\
  length (get_orders_repeatedly calls t st).1 = length calls /\
  Forall2 (fun wq r => r.2 = [GetOrders wq.2] /\ is_unauthorized r.1 = false)
    calls (get_orders_repeatedly calls t st).1.
Proof.
  intros Hs Hall.
  rewrite (get_orders_repeatedly_fresh calls t st s Hs Hall). cbn [fst snd].
  split; [|split; [reflexivity|split; [exact Hs|split; [apply length_map|]]]].
  - intros w q Ht. rewrite (get_orders_fresh w t q st s Hs Ht). reflexivity.
  - clear Hall. induction calls as [|[w q] calls IH]; cbn [map]; constructor.
    + cbn [fst snd]. split; [reflexivity|].
      destruct (getOrders_execute w q); reflexivity.
    + exact IH.
Qed.

Lemma gate_pass_keeps_session_witness :
  (forall w q,
     Date_now w 0 - 1000 <= 3600 * 1000 ->
     stores_of (get_orders w "T" q sample_stores) = sample_stores) /\
  (get_orders_repeatedly
     [(calm_world 1000, sample_query); (shopify_down_world 5000, sample_query);
      (calm_world 3601000, sample_query)] "T" sample_stores).2 = sample_stores /\
  activeSessions
    (get_orders_repeatedly
       [(calm_world 1000, sample_query); (shopify_down_world 5000, sample_query);
        (calm_world 3601000, sample_query)] "T" sample_stores).2 !! "T"
    = Some {| email := "a@x.com"; createdAt := 1000 |} /\
  length
    (get_orders_repeatedly
       [(calm_world 1000, sample_query); (shopify_down_world 5000, sample_query);
        (calm_world 3601000, sample_query)] "T" sample_stores).1 = 3%nat /\
  Forall2 (fun wq r => r.2 = [GetOrders wq.2] /\ is_unauthorized r.1 = false)
    [(calm_world 1000, sample_query); (shopify_down_world 5000, sample_query);
     (calm_world 3601000, sample_query)]
    (get_orders_repeatedly
       [(calm_world 1000, sample_query); (shopify_down_world 5000, sample_query);
        (calm_world 3601000, sample_query)] "T" sample_stores).1.
Proof.
  apply (gate_pass_keeps_session
           [(calm_world 1000, sample_query); (shopify_down_world 5000, sample_query);
            (calm_world 3601000, sample_query)]
           "T" sample_stores {| email := "a@x.com"; createdAt := 1000 |}).
  - vm_compute. reflexivity.
  - repeat constructor; vm_compute; discriminate.
Defined.

(** One more millisecond and the same token is turned away and its session
    evicted. *)
Example gate_rejects_after_window :
  get_orders (calm_world 3601001) "T" sample_query sample_stores =
    (Returns (error_result "Unauthorized: Token expired"),
     {| otpStorage := otpStorage sample_stores; activeSessions := ∅ |}, []).
Proof.
  rewrite (get_orders_expired _ _ _ _ {| email := "a@x.com"; createdAt := 1000 |});
    [ | reflexivity | vm_compute; reflexivity ].
  unfold sample_stores. cbn [activeSessions otpStorage].
  rewrite delete_singleton_eq. reflexivity.
Qed.

(** The scenario of the specification: issue for [a@x.com], verify with the
    issued code inside the window, query orders with the returned token,
    then with a fabricated one. *)
Example issue_verify_query_scenario :
  let st0 := {| otpStorage := ∅; activeSessions := ∅ |} in
  let st1 := stores_of (request_order_otp (calm_world 1000) "a@x.com" st0) in
  let r := verify_order_otp (calm_world 2000) "a@x.com" "100000" st1 in
  token_of (outcome_of r) = Some sample_uuid /\
  is_success (outcome_of (get_orders (calm_world 3000) sample_uuid sample_query (stores_of r)))
    = true /\
  is_unauthorized (outcome_of (get_orders (calm_world 3000) "bogus" sample_query (stores_of r)))
    = true /\
  outcome_of (verify_order_otp (calm_world 2500) "a@x.com" "100000" (stores_of r))
    = InvalidOrExpired.
Proof. vm_compute. repeat split. Qed.

(** * Further facts about the handlers *)

(** ** What a handler looks at *)

Lemma verify_outcome_local (w : world) (e c : string) (st1 st2 : stores) :
  otpStorage st1 !! e = otpStorage st2 !! e ->
  outcome_of (verify_order_otp w e c st1) = outcome_of (verify_order_otp w e c st2) /\
  calls_of (verify_order_otp w e c st1) = calls_of (verify_order_otp w e c st2).
Proof.
  intros H. unfold verify_order_otp. rewrite H.
  destruct (invalid_or_expired w (otpStorage st2 !! e) c); [split; reflexivity|].
  destruct (getCustomers_execute w _ 1) as [err|[|cust more]]; cbn [head];
    [ | | destruct (getCustomerOrders_execute w _ 10) ]; split; reflexivity.
Qed.

Lemma get_orders_outcome_local (w : world) (t : string) (q : orders_query)
    (st1 st2 : stores) :
  createdAt <$> activeSessions st1 !! t = createdAt <$> activeSessions st2 !! t ->
  outcome_of (get_orders w t q st1) = outcome_of (get_orders w t q st2) /\
  calls_of (get_orders w t q st1) = calls_of (get_orders w t q st2).
Proof.
  intros H. unfold get_orders.
  destruct (activeSessions st1 !! t) as [s1|], (activeSessions st2 !! t) as [s2|];
    cbn in H; try discriminate; [|split; reflexivity].
  injection H as ->.
  destruct (bool_decide (Date_now w 0 - createdAt s2 > 3600 * 1000));
    [split; reflexivity|].
  destruct (getOrders_execute w q); split; reflexivity.
Qed.

Lemma verify_stores_cases (w : world) (e c : string) (st : stores) :
  stores_of (verify_order_otp w e c st) = st \/
  stores_of (verify_order_otp w e c st) =
    {| otpStorage := delete e (otpStorage st);
       activeSessions :=
         <[randomUUID w := {| email := e; createdAt := Date_now w 1 |}]>
           (activeSessions st) |}.
Proof.
  destruct (invalid_or_expired w (otpStorage st !! e) c) eqn:E.
  - left. rewrite verify_rejected by exact E. reflexivity.
  - right. apply verify_accepted. exact E.
Qed.

Lemma get_orders_stores_cases (w : world) (t : string) (q : orders_query) (st : stores) :
  stores_of (get_orders w t q st) = st \/
  stores_of (get_orders w t q st) =
    {| otpStorage := otpStorage st; activeSessions := delete t (activeSessions st) |}.
Proof.
  unfold get_orders. destruct (activeSessions st !! t) as [s|]; [|left; reflexivity].
  destruct (bool_decide (Date_now w 0 - createdAt s > 3600 * 1000));
    [right; reflexivity|].
  destruct (getOrders_execute w q); left; reflexivity.
Qed.

(** X1: [request-order-otp] writes the entry of its own email and nothing
    else: the session store is unchanged, the pending OTP of every other
    email is unchanged, and afterwards a verification for another email
    and any gated order query settle exactly as they would have before. *)
Theorem request_leaves_others (w : world) (e : string) (st : stores) :
  activeSessions (stores_of (request_order_otp w e st)) = activeSessions st /\
  (forall e', e' <> e ->
     otpStorage (stores_of (request_order_otp w e st)) !! e' = otpStorage st !! e') /\
  (forall w' e' c, e' <> e ->
     outcome_of (verify_order_otp w' e' c (stores_of (request_order_otp w e st))) =
     outcome_of (verify_order_otp w' e' c st)) /\
  (forall w' t q,
     outcome_of (get_orders w' t q (stores_of (request_order_otp w e st))) =
     outcome_of (get_orders w' t q st)).
Proof.
  rewrite request_stores. cbn [otpStorage activeSessions].
  split; [reflexivity|]. split; [|split].
  - intros e' Hne. apply lookup_insert_ne. congruence.
  - intros w' e' c Hne. apply verify_outcome_local. cbn [otpStorage].
    apply lookup_insert_ne. congruence.
  - intros w' t q. apply get_orders_outcome_local. reflexivity.
Qed.

(** X2: [verify-order-otp], accepted or not, leaves the pending OTP of
    every other email and the session under every token other than the
    one it drew as they were; it never removes a session and never adds a
    pending OTP. *)
Theorem verify_leaves_others (w : world) (e c : string) (st : stores) :
  (forall e', e' <> e ->
     otpStorage (stores_of (verify_order_otp w e c st)) !! e' = otpStorage st !! e') /\
  (forall t, t <> randomUUID w ->
     activeSessions (stores_of (verify_order_otp w e c st)) !! t = activeSessions st !! t) /\
  (forall t, is_Some (activeSessions st !! t) ->
     is_Some (activeSessions (stores_of (verify_order_otp w e c st)) !! t)) /\
  (forall e', is_Some (otpStorage (stores_of (verify_order_otp w e c st)) !! e') ->
     is_Some (otpStorage st !! e')).
Proof.
  destruct (verify_stores_cases w e c st) as [-> | ->]; cbn [otpStorage activeSessions].
  - repeat split; auto.
  - split; [|split; [|split]].
    + intros e' Hne. apply lookup_delete_ne. congruence.
    + intros t Hne. apply lookup_insert_ne. congruence.
    + intros t Hs. destruct (decide (randomUUID w = t)) as [<-|Hne].
      * rewrite lookup_insert_eq. eauto.
      * rewrite lookup_insert_ne by exact Hne. exact Hs.
    + intros e' Hs. destruct (decide (e = e')) as [<-|Hne].
      * rewrite lookup_delete_eq in Hs. destruct Hs as [? [=]].
      * rewrite lookup_delete_ne in Hs by exact Hne. exact Hs.
Qed.

(** X3: [get-orders] never touches the credential store, never creates a
    session, and removes at most the session of the token it was called
    with; the sessions of all other tokens stay as they were. *)
Theorem get_orders_leaves_others (w : world) (t : string) (q : orders_query) (st : stores) :
  otpStorage (stores_of (get_orders w t q st)) = otpStorage st /\
  (forall t', t' <> t ->
     activeSessions (stores_of (get_orders w t q st)) !! t' = activeSessions st !! t') /\
  (forall t', is_Some (activeSessions (stores_of (get_orders w t q st)) !! t') ->
     is_Some (activeSessions st !! t')).
Proof.
  destruct (get_orders_stores_cases w t q st) as [-> | ->]; cbn [otpStorage activeSessions].
  - repeat split; auto.
  - split; [reflexivity|]. split.
    + intros t' Hne. apply lookup_delete_ne. congruence.
    + intros t' Hs. destruct (decide (t = t')) as [<-|Hne].
      * rewrite lookup_delete_eq in Hs. destruct Hs as [? [=]].
      * rewrite lookup_delete_ne in Hs by exact Hne. exact Hs.
Qed.

(** X4: whatever the mail sender and the Shopify tools do, including
    rejecting, [request-order-otp] and [verify-order-otp] settle by
    returning a result; they never reject. *)
Theorem otp_handlers_never_reject (w : world) (e c : string) (st : stores) :
  (exists r, outcome_of (request_order_otp w e st) = Returns r) /\
  (exists r, outcome_of (verify_order_otp w e c st) = Returns r).
Proof.
  split.
  - unfold request_order_otp, outcome_of.
    destruct (resend_emails_send w _); eexists; reflexivity.
  - unfold verify_order_otp, outcome_of.
    destruct (invalid_or_expired w (otpStorage st !! e) c); [eexists; reflexivity|].
    destruct (getCustomers_execute w _ 1) as [err|[|cust more]]; cbn [head];
      [ | | destruct (getCustomerOrders_execute w _ 10) ]; eexists; reflexivity.
Qed.

(** X5: [get-orders] rejects (instead of returning a result) exactly when
    the token has a session that is at most 3600000 ms old and the order
    tool rejects; the error is the tool's, and the stores are unchanged. *)
Theorem get_orders_rejects_iff (w : world) (t err : string) (q : orders_query)
    (st : stores) :
  (outcome_of (get_orders w t q st) = Throws err <->
   exists s, activeSessions st !! t = Some s /\
             Date_now w 0 - createdAt s <= 3600 * 1000 /\
             getOrders_execute w q = inl err) /\
  (outcome_of (get_orders w t q st) = Throws err ->
   stores_of (get_orders w t q st) = st /\
   calls_of (get_orders w t q st) = [GetOrders q]).
Proof.
  unfold get_orders, outcome_of, stores_of, calls_of.
  destruct (activeSessions st !! t) as [s|] eqn:Hs; cbn [fst snd].
  - destruct (bool_decide_reflect (Date_now w 0 - createdAt s > 3600 * 1000)) as [Ht|Ht];
      cbn [fst snd].
    + split; [split|]; try discriminate.
      intros (s' & [= <-] & Hle & _). lia.
    + destruct (getOrders_execute w q) as [err'|result]; cbn [fst snd].
      * split; [split|].
        -- intros [= ->]. exists s. repeat split; lia.
        -- intros (_ & _ & _ & [= ->]). reflexivity.
        -- intros _. split; reflexivity.
      * split; [split|]; try discriminate.
        intros (_ & _ & _ & [=]).
  - split; [split|]; try discriminate.
    intros (s & [=] & _).
Qed.

(** X6: [get-orders] never looks at the email a session was created for:
    two stores that hold, under the token, sessions created at the same
    instant for different emails give the same outcome and dispatch the
    same order query.  The query carries only [status] and [limit]. *)
Theorem get_orders_ignores_session_email (w : world) (t e1 e2 : string) (created : Z)
    (q : orders_query) (st : stores) :
  let st1 := {| otpStorage := otpStorage st;
                activeSessions :=
                  <[t := {| email := e1; createdAt := created |}]> (activeSessions st) |} in
  let st2 := {| otpStorage := otpStorage st;
                activeSessions :=
                  <[t := {| email := e2; createdAt := created |}]> (activeSessions st) |} in
  outcome_of (get_orders w t q st1) = outcome_of (get_orders w t q st2) /\
  calls_of (get_orders w t q st1) = calls_of (get_orders w t q st2).
Proof.
  cbv zeta. apply get_orders_outcome_local. cbn [activeSessions].
  rewrite !lookup_insert_eq. reflexivity.
Qed.

(** ** Sequences of calls *)

(** X7: a token whose session is found expired is reported as expired
    once only: the rejection evicts the session, so every later
    [get-orders] call with that token, at whatever time, is answered
    "Unauthorized: Invalid token", dispatches nothing and changes
    nothing. *)
Theorem expired_token_reported_once (w w' : world) (t : string) (q q' : orders_query)
    (st : stores) (s : session) :
  activeSessions st !! t = Some s ->
  Date_now w 0 - createdAt s > 3600 * 1000 ->
  outcome_of (get_orders w t q st) = Returns (error_result "Unauthorized: Token expired") /\
  get_orders w' t q' (stores_of (get_orders w t q st)) =
    (Returns (error_result "Unauthorized: Invalid token"),
     stores_of (get_orders w t q st), []).
Proof.
  intros Hs Ht. rewrite (get_orders_expired w t q st s Hs Ht).
  split; [reflexivity|].
  apply get_orders_unknown. cbn. apply lookup_delete_eq.
Qed.

Lemma expired_token_reported_once_witness :
  outcome_of (get_orders (calm_world 3601001) "T" sample_query sample_stores) =
    Returns (error_result "Unauthorized: Token expired") /\
  get_orders (calm_world 2000) "T" sample_query
    (stores_of (get_orders (calm_world 3601001) "T" sample_query sample_stores)) =
    (Returns (error_result "Unauthorized: Invalid token"),
     stores_of (get_orders (calm_world 3601001) "T" sample_query sample_stores), []).
Proof.
  apply (expired_token_reported_once (calm_world 3601001) (calm_world 2000) "T"
           sample_query sample_query sample_stores
           {| email := "a@x.com"; createdAt := 1000 |}).
  - vm_compute. reflexivity.
  - vm_compute. reflexivity.
Defined.

(** X8: issuing an OTP, then verifying with the issued code no later than
    300000 ms after issuance, succeeds, consumes the OTP and returns a
    token; a [get-orders] call with that token passes the gate while the
    clock is at most 3600000 ms past the instant the session was created
    (the second clock reading of the verification, not the issuance), and
    is answered "Unauthorized: Token expired" afterwards. *)
Theorem issue_verify_query (w1 w2 w3 : world) (e : string) (q : orders_query)
    (st : stores) :
  Date_now w2 0 <= Date_now w1 0 + 300 * 1000 ->
  let st1 := stores_of (request_order_otp w1 e st) in
  let r := verify_order_otp w2 e (generate_code w1) st1 in
  is_success (outcome_of r) = true /\
  token_of (outcome_of r) = Some (randomUUID w2) /\
  otpStorage (stores_of r) !! e = None /\
  (Date_now w3 0 - Date_now w2 1 <= 3600 * 1000 ->
     calls_of (get_orders w3 (randomUUID w2) q (stores_of r)) = [GetOrders q] /\
     is_unauthorized (outcome_of (get_orders w3 (randomUUID w2) q (stores_of r))) = false) /\
  (Date_now w3 0 - Date_now w2 1 > 3600 * 1000 ->
     outcome_of (get_orders w3 (randomUUID w2) q (stores_of r)) =
       Returns (error_result "Unauthorized: Token expired")).
Proof.
  intros Ht. cbv zeta.
  assert (Hpass : invalid_or_expired w2
                    (otpStorage (stores_of (request_order_otp w1 e st)) !! e)
                    (generate_code w1) = false).
  { rewrite request_stored_entry.
    apply (invalid_or_expired_pass w2
             {| code := generate_code w1; expires := Date_now w1 0 + 300 * 1000 |}).
    exact Ht. }
  destruct (verify_accepted w2 e (generate_code w1) _ Hpass) as (Hs & Htok & Hst).
  split; [exact Hs|]. split; [exact Htok|]. rewrite Hst. cbn [otpStorage].
  split; [apply lookup_delete_eq|].
  set (st2 := {| otpStorage := _; activeSessions := _ |}).
  assert (Hlook : activeSessions st2 !! randomUUID w2 =
                  Some {| email := e; createdAt := Date_now w2 1 |})
    by (unfold st2; cbn [activeSessions]; apply lookup_insert_eq).
  split.
  - intros Hage. rewrite (get_orders_fresh w3 _ q st2 _ Hlook Hage). cbn.
    split; [reflexivity|]. destruct (getOrders_execute w3 q); reflexivity.
  - intros Hage. rewrite (get_orders_expired w3 _ q st2 _ Hlook Hage). reflexivity.
Qed.

Lemma issue_verify_query_witness :
  is_success
    (outcome_of (verify_order_otp (calm_world 301000) "c@x.com" (generate_code (calm_world 1000))
                   (stores_of (request_order_otp (calm_world 1000) "c@x.com" sample_stores))))
    = true /\
  calls_of
    (get_orders (calm_world 3901000) sample_uuid sample_query
       (stores_of (verify_order_otp (calm_world 301000) "c@x.com"
                     (generate_code (calm_world 1000))
                     (stores_of (request_order_otp (calm_world 1000) "c@x.com" sample_stores)))))
    = [GetOrders sample_query].
Proof.
  destruct (issue_verify_query (calm_world 1000) (calm_world 301000) (calm_world 3901000)
              "c@x.com" sample_query sample_stores) as (Hs & _ & _ & Hgate & _).
  - vm_compute. discriminate.
  - split; [exact Hs|]. apply Hgate. vm_compute. discriminate.
Defined.

(** X9: a later login does not revoke an earlier one.  After two rounds
    of issuance and successful verification for the same email, with two
    different tokens drawn, the session store holds both sessions, each
    with its own creation instant. *)
Theorem sessions_accumulate (i1 v1 i2 v2 : world) (e : string) (st : stores) :
  Date_now v1 0 <= Date_now i1 0 + 300 * 1000 ->
  Date_now v2 0 <= Date_now i2 0 + 300 * 1000 ->
  randomUUID v1 <> randomUUID v2 ->
  let st1 := stores_of (request_order_otp i1 e st) in
  let st2 := stores_of (verify_order_otp v1 e (generate_code i1) st1) in
  let st3 := stores_of (request_order_otp i2 e st2) in
  let st4 := stores_of (verify_order_otp v2 e (generate_code i2) st3) in
  activeSessions st4 !! randomUUID v1 = Some {| email := e; createdAt := Date_now v1 1 |} /\
  activeSessions st4 !! randomUUID v2 = Some {| email := e; createdAt := Date_now v2 1 |} /\
  otpStorage st4 !! e = None.
Proof.
  intros Ht1 Ht2 Hne. cbv zeta.
  assert (Hpass : forall i v s0, Date_now v 0 <= Date_now i 0 + 300 * 1000 ->
            invalid_or_expired v
              (otpStorage (stores_of (request_order_otp i e s0)) !! e)
              (generate_code i) = false).
  { intros i v s0 Ht. rewrite request_stored_entry.
    apply (invalid_or_expired_pass v
             {| code := generate_code i; expires := Date_now i 0 + 300 * 1000 |}).
    exact Ht. }
  set (st1 := stores_of (request_order_otp i1 e st)).
  set (st2 := stores_of (verify_order_otp v1 e (generate_code i1) st1)).
  set (st3 := stores_of (request_order_otp i2 e st2)).
  destruct (verify_accepted v2 e (generate_code i2) st3 (Hpass i2 v2 st2 Ht2))
    as (_ & _ & ->).
  cbn [activeSessions otpStorage].
  rewrite lookup_insert_eq, lookup_delete_eq, lookup_insert_ne by congruence.
  unfold st3. rewrite request_stores. cbn [activeSessions].
  unfold st2.
  destruct (verify_accepted v1 e (generate_code i1) st1 (Hpass i1 v1 st Ht1))
    as (_ & _ & ->).
  cbn [activeSessions]. rewrite lookup_insert_eq. repeat split.
Qed.

Lemma sessions_accumulate_witness :
  let st1 := stores_of (request_order_otp (calm_world 1000) "a@x.com" sample_stores) in
  let st2 := stores_of (verify_order_otp (calm_world 2000) "a@x.com"
                          (generate_code (calm_world 1000)) st1) in
  let st3 := stores_of (request_order_otp (calm_world 3000) "a@x.com" st2) in
  let st4 := stores_of (verify_order_otp (second_login_world 4000) "a@x.com"
                          (generate_code (calm_world 3000)) st3) in
  activeSessions st4 !! sample_uuid = Some {| email := "a@x.com"; createdAt := 2000 |} /\
  activeSessions st4 !! randomUUID (second_login_world 4000) =
    Some {| email := "a@x.com"; createdAt := 4000 |} /\
  otpStorage st4 !! "a@x.com" = None.
Proof.
  apply (sessions_accumulate (calm_world 1000) (calm_world 2000) (calm_world 3000)
           (second_login_world 4000) "a@x.com" sample_stores).
  - vm_compute. discriminate.
  - vm_compute. discriminate.
  - vm_compute. discriminate.
Defined.

Lemma verify_repeatedly_wrong (attempts : list (world * string)) (e : string)
    (st : stores) (s : otp_entry) :
  otpStorage st !! e = Some s ->
  Forall (fun a => a.2 <> code s) attempts ->
  verify_repeatedly attempts e st = (map (fun _ => InvalidOrExpired) attempts, st).
Proof.
  intros Hs Hall. induction Hall as [|[w c] attempts Hc _ IH]; [reflexivity|].
  cbn [verify_repeatedly map]. cbn [snd] in Hc.
  rewrite verify_rejected.
  - unfold stores_of, outcome_of. cbn [fst snd]. rewrite IH. reflexivity.
  - rewrite Hs. apply invalid_or_expired_iff. right. exists s.
    split; [reflexivity|]. left. congruence.
Qed.

(** X10: there is no lock-out and no attempt counter.  Any number of
    [verify-order-otp] calls with wrong codes for an email with a pending
    OTP are each answered "Invalid or expired OTP" and leave the stores
    exactly as they were; the pending code is still accepted afterwards,
    up to its expiry. *)
Theorem wrong_guesses_never_lock_out (attempts : list (world * string)) (e : string)
    (st : stores) (s : otp_entry) :
  otpStorage st !! e = Some s ->
  Forall (fun a => a.2 <> code s) attempts ->
  (verify_repeatedly attempts e st).2 = st /\
  (verify_repeatedly attempts e st).1 = map (fun _ => InvalidOrExpired) attempts /\
  forall w,
    Date_now w 0 <= expires s ->
    is_success (outcome_of (verify_order_otp w e (code s)
                  (verify_repeatedly attempts e st).2)) = true.
Proof.
  intros Hs Hall. rewrite (verify_repeatedly_wrong attempts e st s Hs Hall).
  cbn [fst snd]. repeat split.
  intros w Ht. apply verify_success_iff. rewrite Hs.
  apply invalid_or_expired_pass. exact Ht.
Qed.

Lemma wrong_guesses_never_lock_out_witness :
  (verify_repeatedly
     [(calm_world 10, "000000"); (calm_world 20, "000001"); (calm_world 30, "12345")]
     "a@x.com" sample_stores).2 = sample_stores /\
  (verify_repeatedly
     [(calm_world 10, "000000"); (calm_world 20, "000001"); (calm_world 30, "12345")]
     "a@x.com" sample_stores).1 = [InvalidOrExpired; InvalidOrExpired; InvalidOrExpired] /\
  forall w,
    Date_now w 0 <= 300000 ->
    is_success (outcome_of (verify_order_otp w "a@x.com" "123456"
                  (verify_repeatedly
                     [(calm_world 10, "000000"); (calm_world 20, "000001");
                      (calm_world 30, "12345")]
                     "a@x.com" sample_stores).2)) = true.
Proof.
  apply (wrong_guesses_never_lock_out
           [(calm_world 10, "000000"); (calm_world 20, "000001"); (calm_world 30, "12345")]
           "a@x.com" sample_stores {| code := "123456"; expires := 300000 |}).
  - vm_compute. reflexivity.
  - repeat constructor; cbn; discriminate.
Defined.

(** ** The customer id handed to the order lookup *)

Lemma split_last_segment (s : string) :
  free_of "/" (pop (split "/" s)) = true /\
  ((split "/" s = [s] /\ free_of "/" s = true) \/
   exists pre rest seg',
     split "/" s = seg' :: rest /\ rest <> [] /\
     s = (pre ++ "/" ++ pop (split "/" s))%string).
Proof.
  induction s as [|c s IH]; [split; [reflexivity | left; split; reflexivity]|].
  destruct IH as [Hfree [[Hone Hs] | (pre & rest & seg' & Hsplit & Hrest & Heq)]].
  - cbn [split free_of]. rewrite Hone.
    destruct (Ascii.eqb_spec c "/") as [->|Hc].
    + split; [cbn; exact Hs|]. right. exists EmptyString, [s], EmptyString.
      split; [reflexivity|]. split; [discriminate|]. reflexivity.
    + split; [cbn; rewrite Hs; destruct (Ascii.eqb_spec c "/"); [contradiction|reflexivity]|].
      left. split; [reflexivity|].
      cbn. rewrite Hs. reflexivity.
  - cbn [split]. rewrite Hsplit in *.
    destruct rest as [|r rest']; [contradiction|].
    destruct (Ascii.eqb c "/").
    + split; [exact Hfree|]. right.
      exists (String c pre), (seg' :: r :: rest'), EmptyString.
      split; [reflexivity|]. split; [discriminate|].
      change (String c s = String c (pre ++ "/" ++ pop (seg' :: r :: rest'))%string).
      f_equal. exact Heq.
    + split; [exact Hfree|]. right.
      exists (String c pre), (r :: rest'), (String c seg').
      split; [reflexivity|]. split; [discriminate|].
      change (String c s = String c (pre ++ "/" ++ pop (seg' :: r :: rest'))%string).
      f_equal. exact Heq.
Qed.

(** X11: when the code check has passed and the customer lookup finds at
    least one customer, the order lookup is dispatched after the customer
    lookup, for the first customer only, asking for 10 orders, with the
    part of the customer's id that follows its last slash (the whole id
    when it has no slash); that part never contains a slash.  When the
    order lookup answers, the result carries the token, that customer's
    first name and the orders. *)
Theorem verify_found_customer (w : world) (e c : string) (st : stores)
    (cust : customer) (more : list customer) :
  invalid_or_expired w (otpStorage st !! e) c = false ->
  getCustomers_execute w ("email:" ++ e) 1 = inr (cust :: more) ->
  let customerId := pop (split "/" (id cust)) in
  free_of "/" customerId = true /\
  (id cust = customerId \/ exists pre, id cust = (pre ++ "/" ++ customerId)%string) /\
  calls_of (verify_order_otp w e c st) =
    [GetCustomers ("email:" ++ e) 1; GetCustomerOrders customerId 10] /\
  forall orders,
    getCustomerOrders_execute w customerId 10 = inr orders ->
    outcome_of (verify_order_otp w e c st) =
      Returns (text_result (JSON_stringify
        (JObj [("token", JStr (randomUUID w));
               ("firstName", firstName cust);
               ("orders", orders)]))).
Proof.
  intros Hpass Hcust. cbv zeta.
  destruct (split_last_segment (id cust)) as [Hfree Hshape].
  split; [exact Hfree|]. split.
  { destruct Hshape as [[Hone _] | (pre & rest & seg' & _ & _ & Heq)].
    - left. rewrite Hone. reflexivity.
    - right. exists pre. exact Heq. }
  unfold verify_order_otp, calls_of, outcome_of. rewrite Hpass, Hcust. cbn [head].
  destruct (getCustomerOrders_execute w (pop (split "/" (id cust))) 10) as [err|orders'];
    cbn [fst snd]; (split; [reflexivity|]).
  - intros orders [=].
  - intros orders [= ->]. reflexivity.
Qed.

Lemma verify_found_customer_witness :
  calls_of (verify_order_otp (customer_world 2000) "a@x.com" "123456" sample_stores) =
    [GetCustomers "email:a@x.com" 1; GetCustomerOrders "123456" 10] /\
  outcome_of (verify_order_otp (customer_world 2000) "a@x.com" "123456" sample_stores) =
    Returns (text_result (JSON_stringify
      (JObj [("token", JStr sample_uuid);
             ("firstName", JStr "Ada");
             ("orders", JArr [JObj [("name", JStr "#1001")]])]))).
Proof.
  destruct (verify_found_customer (customer_world 2000) "a@x.com" "123456" sample_stores
              {| id := "gid://shopify/Customer/123456"; firstName := JStr "Ada" |} [])
    as (_ & _ & Hcalls & Hout).
  - vm_compute. reflexivity.
  - reflexivity.
  - split; [exact Hcalls|]. apply Hout. reflexivity.
Defined.

(** * The HTTP endpoints *)

Lemma handle_post_state (st : Http.state) (d : string + unit) :
  (Http.handle st (Http.PostMessages d)).1 = st.
Proof.
  cbn [Http.handle]. destruct (Http.activeTransport st); [destruct d|]; reflexivity.
Qed.

Lemma run_active_transport (inputs : list Http.input) (st : Http.state)
    (before : option nat) :
  Http.activeTransport st = None \/ Http.activeTransport st = before ->
  Http.activeTransport (Http.run inputs st).1 = None \/
  Http.activeTransport (Http.run inputs st).1 = Http.latest_sse inputs before.
Proof.
  revert st before. induction inputs as [|i inputs IH]; intros st before Hinv.
  - exact Hinv.
  - cbn [Http.run fst]. destruct i as [conn|conn|conn|d| |]; cbn [Http.latest_sse].
    + apply IH. right. reflexivity.
    + apply IH. exact Hinv.
    + apply IH. cbn [Http.handle].
      destruct (bool_decide (conn ∈ Http.close_listeners st));
        [left; reflexivity | exact Hinv].
    + apply IH. rewrite handle_post_state. exact Hinv.
    + apply IH. exact Hinv.
    + apply IH. exact Hinv.
Qed.

(** X12: after any sequence of requests, connection attempts and closes
    since start-up, a [POST /messages] is either answered 503 "No active
    SSE connection" or handed to the transport of the most recent
    [GET /sse] request (answered 500 "Internal Server Error" when that
    transport's handler rejects); it is never handed to the transport of
    an older connection. *)
Theorem post_goes_to_latest_sse (inputs : list Http.input) (d : string + unit) :
  (Http.handle (Http.run inputs Http.initial).1 (Http.PostMessages d)).2 =
    Http.Send 503 (Lit "No active SSE connection") \/
  exists conn,
    Http.latest_sse inputs None = Some conn /\
    (Http.handle (Http.run inputs Http.initial).1 (Http.PostMessages d)).2 =
      match d with
      | inr _ => Http.HandledBy conn
      | inl _ => Http.Send 500 (Lit "Internal Server Error")
      end.
Proof.
  destruct (run_active_transport inputs Http.initial None) as [H|H];
    [left; reflexivity | | ]; cbn [Http.handle]; rewrite H.
  - left. reflexivity.
  - destruct (Http.latest_sse inputs None) as [conn|]; [|left; reflexivity].
    right. exists conn. split; [reflexivity|]. destruct d; reflexivity.
Qed.

(** X13: the [close] listener of a connection clears [activeTransport]
    without checking whose transport it holds.  When a connection [a] is
    established, a newer connection [b] is established after it, and [a]
    then closes, [activeTransport] becomes null although [b] is still
    open, and [POST /messages] is answered 503 until the next [GET /sse];
    before [a] closed, posts were handed to [b]. *)
Theorem stale_close_drops_new_connection (st : Http.state) (a b : nat) (d : string + unit) :
  a <> b ->
  a ∈ Http.close_listeners st ->
  Http.activeTransport (Http.run [Http.GetSse b; Http.ConnectResolved b] st).1 = Some b /\
  Http.activeTransport
    (Http.run [Http.GetSse b; Http.ConnectResolved b; Http.Closed a] st).1 = None /\
  b ∈ Http.close_listeners
        (Http.run [Http.GetSse b; Http.ConnectResolved b; Http.Closed a] st).1 /\
  (Http.handle (Http.run [Http.GetSse b; Http.ConnectResolved b; Http.Closed a] st).1
     (Http.PostMessages d)).2 = Http.Send 503 (Lit "No active SSE connection").
Proof.
  intros Hne Ha. cbn [Http.run Http.handle fst snd Http.close_listeners Http.activeTransport].
  rewrite bool_decide_eq_true_2 by (right; exact Ha).
  cbn [fst snd Http.close_listeners Http.activeTransport].
  split; [reflexivity|]. split; [reflexivity|]. split; [|reflexivity].
  rewrite filter_cons_True by congruence. left.
Qed.

Lemma stale_close_drops_new_connection_witness :
  Http.activeTransport
    (Http.run [Http.GetSse 1%nat; Http.ConnectResolved 1%nat;
               Http.GetSse 2%nat; Http.ConnectResolved 2%nat; Http.Closed 1%nat]
       Http.initial).1 = None /\
  (Http.run [Http.GetSse 1%nat; Http.ConnectResolved 1%nat;
             Http.GetSse 2%nat; Http.ConnectResolved 2%nat; Http.Closed 1%nat;
             Http.PostMessages (inr tt)]
     Http.initial).2 =
    [Http.Nothing; Http.Nothing; Http.Nothing; Http.Nothing; Http.Nothing;
     Http.Send 503 (Lit "No active SSE connection")].
Proof.
  destruct (stale_close_drops_new_connection
              (Http.run [Http.GetSse 1%nat; Http.ConnectResolved 1%nat] Http.initial).1
              1%nat 2%nat (inr tt)) as (_ & Hnull & _ & _).
  - discriminate.
  - left.
  - split; [exact Hnull | reflexivity].
Defined.

(** X14: the [close] listener is registered only after
    [server.connect] has resolved.  A connection that closes before its
    connection attempt resolved (or whose attempt rejected) leaves
    [activeTransport] pointing at it, and later posts are still handed to
    its transport. *)
Theorem close_before_connect_is_missed (st : Http.state) (c : nat) (d : string + unit) :
  c ∉ Http.close_listeners st ->
  Http.activeTransport (Http.run [Http.GetSse c; Http.Closed c] st).1 = Some c /\
  (Http.handle (Http.run [Http.GetSse c; Http.Closed c] st).1 (Http.PostMessages d)).2 =
    match d with
    | inr _ => Http.HandledBy c
    | inl _ => Http.Send 500 (Lit "Internal Server Error")
    end.
Proof.
  intros Hc. cbn [Http.run Http.handle fst snd Http.close_listeners Http.activeTransport].
  rewrite bool_decide_eq_false_2 by exact Hc.
  cbn [fst snd Http.activeTransport]. split; [reflexivity|]. destruct d; reflexivity.
Qed.

Lemma close_before_connect_is_missed_witness :
  Http.activeTransport (Http.run [Http.GetSse 7%nat; Http.Closed 7%nat] Http.initial).1
    = Some 7%nat /\
  (Http.handle (Http.run [Http.GetSse 7%nat; Http.Closed 7%nat] Http.initial).1
     (Http.PostMessages (inr tt))).2 = Http.HandledBy 7%nat.
Proof.
  apply (close_before_connect_is_missed Http.initial 7%nat (inr tt)).
  apply not_elem_of_nil.
Defined.

(** * Start-up *)

Lemma setting_truthy_or_env (argvalue : Type) (truthy : argvalue -> bool)
    (a : argvalue) (e : option string) :
  Startup.setting_truthy _ truthy (Startup.or_env _ truthy a e) =
    truthy a || Startup.env_truthy e.
Proof.
  unfold Startup.or_env. destruct (truthy a) eqn:E; cbn; [exact E | reflexivity].
Qed.

(** X15: the start-up script gets past its checks exactly when an access
    token and a shop domain are available (a truthy command-line value,
    or else a non-empty environment variable) and [RESEND_API_KEY] is a
    non-empty environment variable.  The settings it proceeds with are
    then all truthy, a truthy command-line value having taken precedence
    over the environment, and the mail key coming from the environment
    only.  Otherwise the process exits with status 1, and the first line
    written names the first missing setting in the order token, domain,
    mail key. *)
Theorem startup_checks (argvalue : Type) (truthy : argvalue -> bool)
    (l : Startup.launch argvalue) :
  let has_token := truthy (Startup.argv_accessToken _ l)
                   || Startup.env_truthy (Startup.env_SHOPIFY_ACCESS_TOKEN _ l) in
  let has_domain := truthy (Startup.argv_domain _ l)
                    || Startup.env_truthy (Startup.env_MYSHOPIFY_DOMAIN _ l) in
  let has_key := Startup.env_truthy (Startup.env_RESEND_API_KEY _ l) in
  ((exists c, Startup.startup _ truthy l = Startup.Proceed _ c) <->
     has_token = true /\ has_domain = true /\ has_key = true) /\
  (forall c,
     Startup.startup _ truthy l = Startup.Proceed _ c ->
     Startup.setting_truthy _ truthy (Startup.SHOPIFY_ACCESS_TOKEN _ c) = true /\
     Startup.setting_truthy _ truthy (Startup.MYSHOPIFY_DOMAIN _ c) = true /\
     Startup.env_truthy (Startup.RESEND_API_KEY _ c) = true /\
     Startup.RESEND_API_KEY _ c = Startup.env_RESEND_API_KEY _ l /\
     (truthy (Startup.argv_accessToken _ l) = true ->
        Startup.SHOPIFY_ACCESS_TOKEN _ c = inl (Startup.argv_accessToken _ l)) /\
     (truthy (Startup.argv_accessToken _ l) = false ->
        Startup.SHOPIFY_ACCESS_TOKEN _ c = inr (Startup.env_SHOPIFY_ACCESS_TOKEN _ l)) /\
     (truthy (Startup.argv_domain _ l) = true ->
        Startup.MYSHOPIFY_DOMAIN _ c = inl (Startup.argv_domain _ l)) /\
     (truthy (Startup.argv_domain _ l) = false ->
        Startup.MYSHOPIFY_DOMAIN _ c = inr (Startup.env_MYSHOPIFY_DOMAIN _ l))) /\
  (forall status errors,
     Startup.startup _ truthy l = Startup.Exit _ status errors ->
     status = 1 /\
     head errors =
       Some (if negb has_token then "Error: SHOPIFY_ACCESS_TOKEN is required."
             else if negb has_domain then "Error: MYSHOPIFY_DOMAIN is required."
             else "Error: RESEND_API_KEY is required.")).
Proof.
  cbv zeta. unfold Startup.startup.
  rewrite !setting_truthy_or_env.
  pose proof (setting_truthy_or_env _ truthy (Startup.argv_accessToken _ l)
                (Startup.env_SHOPIFY_ACCESS_TOKEN _ l)) as Htok.
  pose proof (setting_truthy_or_env _ truthy (Startup.argv_domain _ l)
                (Startup.env_MYSHOPIFY_DOMAIN _ l)) as Hdom.
  destruct (truthy (Startup.argv_accessToken _ l)
            || Startup.env_truthy (Startup.env_SHOPIFY_ACCESS_TOKEN _ l)) eqn:Et;
    cbn [negb].
  2: { split; [split; [intros [c [=]] | intros (? & _); discriminate]|].
       split; [intros c [=]|]. intros status errors [= <- <-]. split; reflexivity. }
  destruct (truthy (Startup.argv_domain _ l)
            || Startup.env_truthy (Startup.env_MYSHOPIFY_DOMAIN _ l)) eqn:Ed;
    cbn [negb].
  2: { split; [split; [intros [c [=]] | intros (_ & ? & _); discriminate]|].
       split; [intros c [=]|]. intros status errors [= <- <-]. split; reflexivity. }
  destruct (Startup.env_truthy (Startup.env_RESEND_API_KEY _ l)) eqn:Ek; cbn [negb].
  2: { split; [split; [intros [c [=]] | intros (_ & _ & ?); discriminate]|].
       split; [intros c [=]|]. intros status errors [= <- <-]. split; reflexivity. }
  split; [split; [intros _; repeat split | intros _; eexists; reflexivity]|].
  split; [|intros status errors [=]].
  intros c [= <-]. cbn.
  rewrite Htok, Hdom. repeat split; try assumption.
  - intros H. unfold Startup.or_env. rewrite H. reflexivity.
  - intros H. unfold Startup.or_env. rewrite H. reflexivity.
  - intros H. unfold Startup.or_env. rewrite H. reflexivity.
  - intros H. unfold Startup.or_env. rewrite H. reflexivity.
Qed.

(** With an empty [--accessToken] on the command line the token of the
    environment is used; with no [RESEND_API_KEY] the script exits even
    though token and domain are there. *)
Example startup_samples :
  let truthy := fun a : option string => Startup.env_truthy a in
  (exists c,
     Startup.startup _ truthy
       {| Startup.argv_accessToken := Some "";
          Startup.argv_domain := Some "shop.myshopify.com";
          Startup.env_SHOPIFY_ACCESS_TOKEN := Some "shpat_1";
          Startup.env_MYSHOPIFY_DOMAIN := None;
          Startup.env_RESEND_API_KEY := Some "re_1" |} = Startup.Proceed _ c /\
     Startup.SHOPIFY_ACCESS_TOKEN _ c = inr (Some "shpat_1") /\
     Startup.MYSHOPIFY_DOMAIN _ c = inl (Some "shop.myshopify.com")) /\
  Startup.startup _ truthy
    {| Startup.argv_accessToken := Some "shpat_2";
       Startup.argv_domain := Some "shop.myshopify.com";
       Startup.env_SHOPIFY_ACCESS_TOKEN := None;
       Startup.env_MYSHOPIFY_DOMAIN := None;
       Startup.env_RESEND_API_KEY := None |} =
    Startup.Exit _ 1 ["Error: RESEND_API_KEY is required.";
                      "Please provide it via .env file."].
Proof. cbv zeta. split; [eexists; repeat split|reflexivity]. Qed.

(** * The routes of the earlier revision *)

Lemma earlier_never_reaches_second_sse (request_line : Type)
    (route_matches : Earlier.method -> string -> request_line -> bool)
    (line : request_line) :
  Earlier.dispatch _ route_matches Earlier.routes line <> Some Earlier.SseActiveTransport.
Proof.
  unfold Earlier.routes. cbn [Earlier.dispatch].
  destruct (route_matches Earlier.GET "/sse" line); [discriminate|].
  destruct (route_matches Earlier.POST "/messages" line); [discriminate|].
  destruct (route_matches Earlier.GET "/" line); discriminate.
Qed.

Lemma earlier_serve_null (request_line : Type)
    (route_matches : Earlier.method -> string -> request_line -> bool)
    (r : Earlier.request request_line) :
  (Earlier.serve _ route_matches None r).1 = None.
Proof.
  unfold Earlier.serve.
  pose proof (earlier_never_reaches_second_sse _ route_matches (Earlier.line _ r)) as Hno.
  destruct (Earlier.dispatch _ route_matches Earlier.routes (Earlier.line _ r))
    as [[| | |]|]; try reflexivity.
  contradiction.
Qed.

(** X16: in the earlier revision of the entry point the [GET /sse] route
    that assigns [activeTransport] is registered after another
    [GET /sse] route, so however routes are matched it is never reached:
    [activeTransport] stays null over any sequence of requests, no request
    is ever handed to a transport, and every request routed to the
    [POST /messages] handler is answered 503 "No active SSE
    connection". *)
Theorem earlier_messages_always_unavailable (request_line : Type)
    (route_matches : Earlier.method -> string -> request_line -> bool)
    (requests : list (Earlier.request request_line)) :
  (forall line,
     Earlier.dispatch _ route_matches Earlier.routes line
       <> Some Earlier.SseActiveTransport) /\
  (Earlier.serve_all _ route_matches requests None).1 = None /\
  (Earlier.serve_all _ route_matches requests None).2 =
    map (fun r => (Earlier.serve _ route_matches None r).2) requests /\
  Forall (fun reply => forall t, reply <> Earlier.HandledBy t)
    (Earlier.serve_all _ route_matches requests None).2 /\
  (forall r,
     Earlier.dispatch _ route_matches Earlier.routes (Earlier.line _ r)
       = Some Earlier.Messages ->
     (Earlier.serve _ route_matches None r).2 =
       Earlier.Send 503 (Lit "No active SSE connection")).
Proof.
  split; [apply earlier_never_reaches_second_sse|].
  assert (Hall : Earlier.serve_all _ route_matches requests None =
                 (None, map (fun r => (Earlier.serve _ route_matches None r).2) requests)).
  { induction requests as [|r requests IH]; [reflexivity|].
    cbn [Earlier.serve_all map]. rewrite earlier_serve_null, IH. reflexivity. }
  rewrite Hall. cbn [fst snd].
  split; [reflexivity|]. split; [reflexivity|]. split.
  - apply Forall_forall. intros reply Hin t.
    apply list_elem_of_In, in_map_iff in Hin as (r & <- & _).
    unfold Earlier.serve.
    destruct (Earlier.dispatch _ route_matches Earlier.routes (Earlier.line _ r))
      as [[| | |]|]; cbn [snd]; discriminate.
  - intros r Hr. unfold Earlier.serve. rewrite Hr. reflexivity.
Qed.

(** With the usual matching (same method, same path) a [GET /sse] followed
    by a [POST /messages] is answered 503. *)
Example earlier_sse_then_post :
  let matches := fun (m : Earlier.method) (pattern : string)
                     (line : Earlier.method * string) =>
    match m, line.1 with
    | Earlier.GET, Earlier.GET | Earlier.POST, Earlier.POST => String.eqb pattern line.2
    | _, _ => false
    end in
  Earlier.serve_all _ matches
    [ {| Earlier.line := (Earlier.GET, "/sse"); Earlier.conn := 1%nat;
         Earlier.delegate := inr tt |};
      {| Earlier.line := (Earlier.POST, "/messages"); Earlier.conn := 2%nat;
         Earlier.delegate := inr tt |} ] None =
  (None, [Earlier.Nothing; Earlier.Send 503 (Lit "No active SSE connection")]).
Proof. reflexivity. Qed.

(** * Mail dispatch failures the handler does not see *)

Lemma request_error_iff_rejected (w : world) (e : string) (st : stores) :
  is_success (outcome_of (request_order_otp w e st)) = false <->
  exists err, resend_emails_send w (otp_mail e (generate_code w)) = inl err.
Proof.
  unfold request_order_otp, outcome_of.
  destruct (resend_emails_send w _) as [err|u]; cbn.
  - split; [eauto | reflexivity].
  - split; [discriminate | intros [err [=]]].
Qed.

(** C7 does not hold of the code.  The handler reports a failed mail
    dispatch only when the promise of [resend.emails.send] rejects: the
    value the promise resolves with is dropped.  When the client reports
    the failure in that value ([error] non-null, no [data]), the handler
    returns the confirmation "OTP sent to ..." with no error flag, as for
    a mail that went out.  The OTP is stored all the same. *)
Theorem mail_refusal_reported_as_sent (w : world)
    (client : mail -> string + Resend.response) (e reason : string) (st : stores) :
  (forall m, resend_emails_send w m = Resend.awaited (client m)) ->
  client (otp_mail e (generate_code w)) =
    inr {| Resend.data := None; Resend.error := Some reason |} ->
  Resend.failed (client (otp_mail e (generate_code w))) = true /\
  outcome_of (request_order_otp w e st) =
    Returns (text_result (Lit ("OTP sent to " ++ e))) /\
  is_success (outcome_of (request_order_otp w e st)) = true /\
  calls_of (request_order_otp w e st) = [EmailsSend (otp_mail e (generate_code w))] /\
  otpStorage (stores_of (request_order_otp w e st)) !! e =
    Some {| code := generate_code w; expires := Date_now w 0 + 300 * 1000 |}.
Proof.
  intros Hview Hanswer.
  split; [rewrite Hanswer; reflexivity|].
  assert (Hout : outcome_of (request_order_otp w e st) =
                 Returns (text_result (Lit ("OTP sent to " ++ e))) /\
                 calls_of (request_order_otp w e st) =
                 [EmailsSend (otp_mail e (generate_code w))]).
  { unfold request_order_otp, outcome_of, calls_of.
    rewrite Hview, Hanswer. split; reflexivity. }
  destruct Hout as [Hout Hcalls].
  split; [exact Hout|]. split; [rewrite Hout; reflexivity|].
  split; [exact Hcalls | apply request_stored_entry].
Qed.

Lemma mail_refusal_reported_as_sent_witness :
  Resend.failed (inr {| Resend.data := None;
                        Resend.error := Some "validation_error: API key is invalid" |})
    = true /\
  outcome_of (request_order_otp
                (mail_refused_world 1000 "validation_error: API key is invalid")
                "b@x.com" sample_stores) =
    Returns (text_result (Lit "OTP sent to b@x.com")) /\
  is_success (outcome_of (request_order_otp
                (mail_refused_world 1000 "validation_error: API key is invalid")
                "b@x.com" sample_stores)) = true.
Proof.
  destruct (mail_refusal_reported_as_sent
              (mail_refused_world 1000 "validation_error: API key is invalid")
              (fun _ => inr {| Resend.data := None;
                               Resend.error := Some "validation_error: API key is invalid" |})
              "b@x.com" "validation_error: API key is invalid" sample_stores)
    as (Hfailed & Hout & Hok & _).
  - intros m. reflexivity.
  - reflexivity.
  - split; [exact Hfailed|]. split; [exact Hout | exact Hok].
Defined.
